(** * Uplink normalisation and time-series ingestion: a shallow embedding

    The development follows the two TypeScript sources of the webhook
    service: the server module (field resolver, payload normaliser and the
    webhook handler) and [db.ts] (the SQLite-backed ingestion store and the
    daily aggregation).

    Modelling conventions.
    - A JavaScript [number] is an IEEE-754 binary64 value, represented by
      [spec_float] with the standard library's reference operations at
      precision 53 and maximal exponent 1024.
    - A JavaScript string is a byte string ([string]); the character
      classes used by the code ([\d], hexadecimal digits, white space,
      upper-case letters) are the ASCII ones.
    - Functions of the JavaScript runtime that the sources call but do not
      define (number printing, JSON, the clock, date parsing and time-zone
      projection) are gathered in the record [host]. *)

From Stdlib Require Import ZArith List String Ascii Bool Lia.
From Stdlib Require Import Sorting.Sorted Sorting.Permutation.
From Stdlib Require Import Floats.SpecFloat.
From Stdlib Require Import DecimalString.
Import ListNotations.
Set Warnings "-register-all".
Open Scope string_scope.
Open Scope list_scope.
Open Scope Z_scope.

(* ===================================================================== *)
(** * Part I: definitions                                                 *)
(* ===================================================================== *)

(** ** Numbers *)

Module JsNumber.

Definition number := spec_float.

Definition prec : Z := 53.
Definition emax : Z := 1024.

Definition nan : number := S754_nan.
Definition pos_zero : number := S754_zero false.

(** [Number.isFinite]. *)
Definition isFinite (x : number) : bool :=
  match x with
  | S754_zero _ | S754_finite _ _ _ => true
  | S754_infinity _ | S754_nan => false
  end.

(** [a < b] and [a > b] on numbers; both are false as soon as one side is
    NaN. *)
Definition lt (a b : number) : bool := SFltb a b.
Definition gt (a b : number) : bool := SFltb b a.

Definition sub (a b : number) : number := SFsub prec emax a b.
Definition mul (a b : number) : number := SFmul prec emax a b.

(** The number denoted by an integer, rounded to nearest-even. *)
Definition of_Z (z : Z) : number := binary_normalize prec emax z 0 false.

(** The number nearest to [(-1)^neg * m * 10^e10], the value of a decimal
    literal with digits [m] and decimal exponent [e10]. *)
Definition of_decimal (neg : bool) (m : Z) (e10 : Z) : number :=
  match m with
  | Zpos p =>
      if 0 <=? e10
      then binary_round prec emax neg (p * Z.to_pos (10 ^ e10))%positive 0
      else
        let '(q, e2, l) :=
          SFdiv_core_binary prec emax (Zpos p) 0 (10 ^ (- e10)) 0 in
        binary_round_aux prec emax neg q e2 l
  | _ => S754_zero neg
  end.

(** The integer [floor (x + 1/2)] for the finite value
    [x = (-1)^s * m * 2^e]: the mathematical content of [Math.round]. *)
Definition round_half_up (s : bool) (m : positive) (e : Z) : Z :=
  let sm := if s then Z.neg m else Z.pos m in
  if 0 <=? e then sm * 2 ^ e
  else (2 * sm + 2 ^ (- e)) / 2 ^ (1 - e).

(** [Math.round x] for a finite [x], as the integer that an INTEGER column
    receives.  Callers guard the call with [isFinite]; the value at a
    non-finite argument is never used. *)
Definition round_int (x : number) : Z :=
  match x with
  | S754_finite s m e => round_half_up s m e
  | _ => 0
  end.

(** [Math.round] as a number: zeros, infinities and NaN are fixed points,
    and a result of zero keeps the sign of the argument. *)
Definition Math_round (x : number) : number :=
  match x with
  | S754_finite s m e =>
      let z := round_half_up s m e in
      if z =? 0 then S754_zero s else of_Z z
  | _ => x
  end.

End JsNumber.

Import JsNumber.

(** ** Strings *)

Module JsString.

Definition chars (s : string) : list ascii := list_ascii_of_string s.
Definition of_chars (cs : list ascii) : string := string_of_list_ascii cs.

Definition code (c : ascii) : Z := Z.of_N (N_of_ascii c).

Definition is_digit (c : ascii) : bool :=
  (48 <=? code c) && (code c <=? 57).

Definition is_upper (c : ascii) : bool :=
  (65 <=? code c) && (code c <=? 90).

Definition is_lower_hex (c : ascii) : bool :=
  is_digit c || ((97 <=? code c) && (code c <=? 102)).

Definition is_hex (c : ascii) : bool :=
  is_lower_hex c || ((65 <=? code c) && (code c <=? 70)).

(** White space removed by [trim] and skipped by [Number]: TAB, LF, VT, FF,
    CR and SPACE. *)
Definition is_space (c : ascii) : bool :=
  ((9 <=? code c) && (code c <=? 13)) || (code c =? 32).

Definition lower_char (c : ascii) : ascii :=
  if is_upper c then ascii_of_N (N_of_ascii c + 32) else c.

Definition toLowerCase (s : string) : string :=
  of_chars (map lower_char (chars s)).

Fixpoint drop_space (cs : list ascii) : list ascii :=
  match cs with
  | c :: r => if is_space c then drop_space r else cs
  | [] => []
  end.

Definition trim_chars (cs : list ascii) : list ascii :=
  rev (drop_space (rev (drop_space cs))).

Definition trim (s : string) : string := of_chars (trim_chars (chars s)).

Definition is_empty (s : string) : bool :=
  match s with EmptyString => true | _ => false end.

(** [s.replace(",", ".")]: only the first comma is replaced. *)
Fixpoint replace_first_comma (cs : list ascii) : list ascii :=
  match cs with
  | c :: r =>
      if Ascii.eqb c "," then "."%char :: r else c :: replace_first_comma r
  | [] => []
  end.

(** The longest prefix of digits and what follows it. *)
Fixpoint span_digits (cs : list ascii) : list ascii * list ascii :=
  match cs with
  | c :: r =>
      if is_digit c
      then let '(ds, rest) := span_digits r in (c :: ds, rest)
      else ([], cs)
  | [] => ([], [])
  end.

Definition digit_val (c : ascii) : Z := code c - 48.

Definition digits_val (ds : list ascii) : Z :=
  fold_left (fun acc c => 10 * acc + digit_val c) ds 0.

Definition is_nil {A} (l : list A) : bool :=
  match l with [] => true | _ => false end.

End JsString.

Import JsString.

(** ** [Number(string)] *)

Module StringToNumber.

(** Value of a digit in a radix up to sixteen, if it is one. *)
Definition radix_digit (radix : Z) (c : ascii) : option Z :=
  let v :=
    if is_digit c then code c - 48
    else if (97 <=? code c) && (code c <=? 102) then code c - 87
    else if (65 <=? code c) && (code c <=? 70) then code c - 55
    else 16 in
  if v <? radix then Some v else None.

Fixpoint radix_val (radix : Z) (acc : Z) (cs : list ascii) : option Z :=
  match cs with
  | [] => Some acc
  | c :: r =>
      match radix_digit radix c with
      | Some v => radix_val radix (radix * acc + v) r
      | None => None
      end
  end.

(** [0x], [0o] and [0b] literals: a prefix followed by at least one digit
    of the radix and nothing else. *)
Definition non_decimal (cs : list ascii) : option (option Z) :=
  match cs with
  | "0"%char :: p :: r =>
      let radix :=
        if Ascii.eqb p "x" || Ascii.eqb p "X" then Some 16
        else if Ascii.eqb p "o" || Ascii.eqb p "O" then Some 8
        else if Ascii.eqb p "b" || Ascii.eqb p "B" then Some 2
        else None in
      match radix with
      | Some k => Some (if is_nil r then None else radix_val k 0 r)
      | None => None
      end
  | _ => None
  end.

(** The exponent part: empty, or [e]/[E], an optional sign and digits. *)
Definition exponent_part (cs : list ascii) : option Z :=
  match cs with
  | [] => Some 0
  | c :: r =>
      if Ascii.eqb c "e" || Ascii.eqb c "E" then
        let '(neg, r') :=
          match r with
          | "-"%char :: t => (true, t)
          | "+"%char :: t => (false, t)
          | _ => (false, r)
          end in
        let '(ds, rest) := span_digits r' in
        if is_nil ds || negb (is_nil rest) then None
        else Some (if neg then - digits_val ds else digits_val ds)
      else None
  end.

(** An unsigned decimal literal as digits and a decimal exponent. *)
Definition decimal_literal (cs : list ascii) : option (Z * Z) :=
  let '(ip, r1) := span_digits cs in
  let '(fp, r2) :=
    match r1 with
    | "."%char :: t => span_digits t
    | _ => ([], r1)
    end in
  if is_nil ip && is_nil fp then None
  else
    match exponent_part r2 with
    | Some e => Some (digits_val (ip ++ fp), e - Z.of_nat (List.length fp))
    | None => None
    end.

Definition infinity_word : list ascii := chars "Infinity".

Definition signed_literal (neg : bool) (cs : list ascii) : number :=
  if list_eq_dec ascii_dec cs infinity_word then S754_infinity neg
  else
    match decimal_literal cs with
    | Some (m, e) => of_decimal neg m e
    | None => nan
    end.

(** [Number(s)] for a string [s]. *)
Definition Number_of_string (s : string) : number :=
  let cs := trim_chars (chars s) in
  match cs with
  | [] => pos_zero
  | c :: r =>
      match non_decimal cs with
      | Some (Some v) => of_decimal false v 0
      | Some None => nan
      | None =>
          if Ascii.eqb c "-" then signed_literal true r
          else if Ascii.eqb c "+" then signed_literal false r
          else signed_literal false cs
      end
  end.

End StringToNumber.

Import StringToNumber.

(** ** Byte buffers: base64 decoding and hexadecimal printing *)

Module Buffer.

(** Sextet of a character of the base64 alphabet; the URL-safe characters
    [-] and [_] are accepted as well. *)
Definition unbase64 (c : ascii) : option Z :=
  let n := code c in
  if (65 <=? n) && (n <=? 90) then Some (n - 65)
  else if (97 <=? n) && (n <=? 122) then Some (n - 71)
  else if (48 <=? n) && (n <=? 57) then Some (n + 4)
  else if (n =? 43) || (n =? 45) then Some 62
  else if (n =? 47) || (n =? 95) then Some 63
  else None.

(** The sextets of the input: decoding stops at the first [=], and any
    other character outside the alphabet is skipped. *)
Fixpoint sextets (cs : list ascii) : list Z :=
  match cs with
  | [] => []
  | c :: r =>
      if Ascii.eqb c "=" then []
      else match unbase64 c with
           | Some v => v :: sextets r
           | None => sextets r
           end
  end.

Definition byte_of (z : Z) : ascii := ascii_of_N (Z.to_N (z mod 256)).

(** Four sextets give three bytes; a trailing group of three gives two
    bytes, of two gives one, and a single trailing sextet gives none. *)
Fixpoint group_bytes (fuel : nat) (vs : list Z) : list ascii :=
  match fuel with
  | O => []
  | S n =>
      match vs with
      | a :: b :: c :: d :: r =>
          byte_of (a * 4 + b / 16)
          :: byte_of ((b mod 16) * 16 + c / 4)
          :: byte_of ((c mod 4) * 64 + d)
          :: group_bytes n r
      | [a; b; c] =>
          [byte_of (a * 4 + b / 16); byte_of ((b mod 16) * 16 + c / 4)]
      | [a; b] => [byte_of (a * 4 + b / 16)]
      | _ => []
      end
  end.

(** [Buffer.from(s, "base64")]. *)
Definition from_base64 (s : string) : list ascii :=
  let vs := sextets (chars s) in group_bytes (List.length vs) vs.

Definition hex_digit (z : Z) : ascii :=
  if z <? 10 then ascii_of_N (Z.to_N (z + 48))
  else ascii_of_N (Z.to_N (z + 87)).

Definition hex_of_byte (b : ascii) : list ascii :=
  [hex_digit (code b / 16); hex_digit (code b mod 16)].

(** [buf.toString("hex")]. *)
Definition to_hex (buf : list ascii) : string :=
  of_chars (flat_map hex_of_byte buf).

(** [buf.toString("utf8")] in the byte model of strings. *)
Definition to_utf8 (buf : list ascii) : string := of_chars buf.

End Buffer.

(** ** Documents *)

(** A decoded JSON document.  The entries of [VObj] are listed in the order
    in which [Object.entries] enumerates them, and a key occurs once. *)
Inductive value : Type :=
| VUndefined
| VNull
| VBool (b : bool)
| VNum (n : number)
| VStr (s : string)
| VArr (items : list value)
| VObj (entries : list (string * value)).

(** [v == null]. *)
Definition nullish (v : value) : bool :=
  match v with VUndefined | VNull => true | _ => false end.

(** Truthiness, as tested by [!v], [v ? a : b] and [v || w]. *)
Definition truthy (v : value) : bool :=
  match v with
  | VUndefined | VNull => false
  | VBool b => b
  | VNum (S754_zero _) | VNum S754_nan => false
  | VNum _ => true
  | VStr s => negb (is_empty s)
  | VArr _ | VObj _ => true
  end.

Fixpoint lookup {A} (k : string) (entries : list (string * A)) : option A :=
  match entries with
  | [] => None
  | (k', v) :: r => if String.eqb k k' then Some v else lookup k r
  end.

(** [v?.k]: the own property [k] of an object, [undefined] elsewhere. *)
Definition prop (v : value) (k : string) : value :=
  match v with
  | VObj entries =>
      match lookup k entries with Some x => x | None => VUndefined end
  | _ => VUndefined
  end.

(** ** Field resolver *)

Definition numOrNull (v : value) : option number :=
  match v with
  | VNum n => if isFinite n then Some n else None
  | VStr s =>
      let n := Number_of_string s in
      if isFinite n then Some n else None
  | _ => None
  end.

Definition asRecord (v : value) : option (list (string * value)) :=
  match v with
  | VObj entries => Some entries
  | _ => None
  end.

Inductive segment : Type :=
| Key (k : string)
| Index (i : Z).

Fixpoint getDeep (cur : value) (path : list segment) : value :=
  match path with
  | [] => cur
  | Index i :: rest =>
      match cur with
      | VArr items =>
          if (i <? 0) || (Z.of_nat (List.length items) <=? i) then VUndefined
          else getDeep (nth (Z.to_nat i) items VUndefined) rest
      | _ => VUndefined
      end
  | Key k :: rest =>
      match asRecord cur with
      | Some rec =>
          match lookup k rec with
          | Some v => getDeep v rest
          | None => VUndefined
          end
      | None => VUndefined
      end
  end.

Fixpoint firstDefined (obj : value) (paths : list (list segment)) : value :=
  match paths with
  | [] => VUndefined
  | p :: rest =>
      let v := getDeep obj p in
      if nullish v then firstDefined obj rest else v
  end.

(** A path of string keys. *)
Definition keys (ks : list string) : list segment := map Key ks.

Definition decodeBase64Ascii (v : value) : option string :=
  match v with
  | VStr s =>
      if is_empty (trim s) then None
      else Some (Buffer.to_utf8 (Buffer.from_base64 s))
  | _ => None
  end.

(** ** Depth-bounded keyword search *)

(** What [findFirstKeyDeep] can observe of a node: whether it is
    [null]/[undefined], an array with its items, a plain object with its
    entries in enumeration order, or anything else. *)
Inductive shape (node : Type) : Type :=
| ShNullish
| ShScalar
| ShArray (items : list node)
| ShRecord (entries : list (string * node)).

Arguments ShNullish {node}.
Arguments ShScalar {node}.
Arguments ShArray {node} items.
Arguments ShRecord {node} entries.

Module Search.
Section Loop.

Variable node : Type.
(** How a node is inspected ([v == null], [Array.isArray], [asRecord]). *)
Variable view : node -> shape node.
(** The membership test of the [seen] set. *)
Variable same : node -> node -> bool.
Variable wanted : list string.
Variable maxDepth : nat.

Record frame : Type := Frame { fv : node; fdepth : nat }.

(** The work stack (top first) and the [seen] set. *)
Record state : Type := State { stack : list frame; seen : list node }.

Inductive outcome : Type :=
| Continue (st : state)
| Return (r : option node).

Definition has_seen (sn : list node) (v : node) : bool :=
  existsb (same v) sn.

Definition is_nullish (v : node) : bool :=
  match view v with ShNullish => true | _ => false end.

Definition is_wanted (k : string) : bool :=
  existsb (String.eqb k) wanted.

(** The guard [v == null || seen.has(v) || depth > maxDepth]. *)
Definition skips (sn : list node) (f : frame) : bool :=
  is_nullish (fv f) || has_seen sn (fv f) || (maxDepth <? fdepth f)%nat.

(** [for (const item of v) stack.push({ v: item, depth: depth + 1 })]. *)
Definition push_items (items : list node) (depth : nat) (stk : list frame)
  : list frame :=
  fold_left (fun st item => Frame item (S depth) :: st) items stk.

(** The loop over [Object.entries(rec)]: the first wanted key with a
    non-null value ends the search, every entry before it is pushed. *)
Fixpoint scan_entries (entries : list (string * node)) (depth : nat)
  (stk : list frame) : node + list frame :=
  match entries with
  | [] => inr stk
  | (k, val) :: rest =>
      if is_wanted k && negb (is_nullish val) then inl val
      else scan_entries rest depth (Frame val (S depth) :: stk)
  end.

(** One iteration of the [while (stack.length)] loop. *)
Definition step (st : state) : outcome :=
  match stack st with
  | [] => Return None
  | f :: rest =>
      if skips (seen st) f then Continue (State rest (seen st))
      else
        let seen' := fv f :: seen st in
        match view (fv f) with
        | ShArray items =>
            Continue (State (push_items items (fdepth f) rest) seen')
        | ShRecord entries =>
            match scan_entries entries (fdepth f) rest with
            | inl val => Return (Some val)
            | inr stk => Continue (State stk seen')
            end
        | _ => Continue (State rest seen')
        end
  end.

Definition init (root : node) : state := State [Frame root 0] [].

(** The loop run for at most [fuel] iterations: [None] when the fuel is
    used up, otherwise the value returned ([Some None] is [undefined]). *)
Fixpoint run (fuel : nat) (st : state) : option (option node) :=
  match fuel with
  | O => None
  | S n =>
      match step st with
      | Return r => Some r
      | Continue st' => run n st'
      end
  end.

(** States met by the loop started at [root]. *)
Inductive reachable (root : node) : state -> Prop :=
| reach_init : reachable root (init root)
| reach_step st st' :
    reachable root st -> step st = Continue st' -> reachable root st'.

(** [child v w]: [w] is an item or an entry value of [v]. *)
Definition child (v w : node) : Prop :=
  match view v with
  | ShArray items => In w items
  | ShRecord entries => exists k, In (k, w) entries
  | _ => False
  end.

(** [at_depth root w d]: [w] lies at the end of a path of [d] edges that
    starts at [root]. *)
Inductive at_depth (root : node) : node -> nat -> Prop :=
| depth_root : at_depth root root 0
| depth_child v w d :
    at_depth root v d -> child v w -> at_depth root w (S d).

End Loop.
End Search.

Arguments Search.Frame {node}.
Arguments Search.fv {node}.
Arguments Search.fdepth {node}.
Arguments Search.State {node}.
Arguments Search.stack {node}.
Arguments Search.seen {node}.
Arguments Search.Continue {node}.
Arguments Search.Return {node}.

(** *** Documents held in the JavaScript heap

    Objects and arrays are heap cells and values refer to them by address,
    so a document may share cells or refer back to itself. *)
Module Heap.

Inductive hvalue : Type :=
| HUndefined
| HNull
| HBool (b : bool)
| HNum (n : number)
| HStr (s : string)
| HRef (addr : nat).

Inductive cell : Type :=
| CArr (items : list hvalue)
| CObj (entries : list (string * hvalue)).

Definition heap := list cell.

Definition view (h : heap) (v : hvalue) : shape hvalue :=
  match v with
  | HUndefined | HNull => ShNullish
  | HRef a =>
      match nth_error h a with
      | Some (CArr items) => ShArray items
      | Some (CObj entries) => ShRecord entries
      | None => ShScalar
      end
  | _ => ShScalar
  end.

(** SameValueZero: references by address, NaN equal to itself and the two
    zeros equal. *)
Definition same_number (a b : number) : bool :=
  match a, b with
  | S754_nan, S754_nan => true
  | _, _ => SFeqb a b
  end.

Definition same (a b : hvalue) : bool :=
  match a, b with
  | HUndefined, HUndefined => true
  | HNull, HNull => true
  | HBool x, HBool y => Bool.eqb x y
  | HNum x, HNum y => same_number x y
  | HStr x, HStr y => String.eqb x y
  | HRef x, HRef y => Nat.eqb x y
  | _, _ => false
  end.

Definition cell_size (c : cell) : nat :=
  match c with
  | CArr items => List.length items
  | CObj entries => List.length entries
  end.

(** Number of item and entry slots in the whole heap. *)
Definition slots (h : heap) : nat := list_sum (map cell_size h).

(** The loop visits a cell at most once and pops one frame per iteration,
    so one more iteration than there are slots, plus one per initial frame,
    is enough. *)
Definition findFirstKeyDeep (h : heap) (root : hvalue) (wanted : list string)
  (maxDepth : nat) : option (option hvalue) :=
  Search.run hvalue (view h) same wanted maxDepth
    (S (S (slots h))) (Search.init hvalue root).

End Heap.

(** *** Decoded JSON documents as search graphs

    The nodes of a parsed document are pairwise distinct heap cells, so the
    [seen] set can only ever recognise a primitive it has met before. *)
Definition view_value (v : value) : shape value :=
  match v with
  | VUndefined | VNull => ShNullish
  | VArr items => ShArray items
  | VObj entries => ShRecord entries
  | _ => ShScalar
  end.

Definition same_value (a b : value) : bool :=
  match a, b with
  | VBool x, VBool y => Bool.eqb x y
  | VNum x, VNum y => Heap.same_number x y
  | VStr x, VStr y => String.eqb x y
  | _, _ => false
  end.

Fixpoint value_size (v : value) : nat :=
  match v with
  | VArr items => S (list_sum (map value_size items))
  | VObj entries =>
      S (list_sum (map (fun kv => value_size (snd kv)) entries))
  | _ => 1%nat
  end.

(** [findFirstKeyDeep(root, keys, maxDepth)] on a decoded document; the
    result is [VUndefined] when no key is found. *)
Definition findFirstKeyDeep (root : value) (wanted : list string)
  (maxDepth : nat) : value :=
  match Search.run value view_value same_value wanted maxDepth
          (S (value_size root)) (Search.init value root) with
  | Some (Some v) => v
  | _ => VUndefined
  end.

(** ** Payload normaliser *)

(** The original representation kept next to a parsed meter value. *)
Inductive raw_meter : Type :=
| RawNum (n : number)
| RawStr (s : string).

Record meter : Type := Meter {
  meterValue : option number;
  meterValueRaw : option raw_meter
}.

Definition all_digits (cs : list ascii) : bool := forallb is_digit cs.

(** [s.match(/^(\d{5})(\d{1,3})$/)]: the two groups. *)
Definition compact_match (s : string) : option (list ascii * list ascii) :=
  let cs := chars s in
  let n := List.length cs in
  if all_digits cs && (6 <=? n)%nat && (n <=? 8)%nat
  then Some (firstn 5 cs, skipn 5 cs)
  else None.

(** A match of [-?\d+(?:\.\d+)?] that starts at the head of [cs]. *)
Definition number_at (cs : list ascii) : option (list ascii) :=
  let '(sign, r) :=
    match cs with
    | "-"%char :: d :: t =>
        if is_digit d then (["-"%char], d :: t) else ([], cs)
    | _ => ([], cs)
    end in
  let '(ds, rest) := span_digits r in
  if is_nil ds then None
  else
    let frac :=
      match rest with
      | "."%char :: t =>
          let '(fs, _) := span_digits t in
          if is_nil fs then [] else "."%char :: fs
      | _ => []
      end in
    Some (sign ++ ds ++ frac).

(** The leftmost match of [-?\d+(?:\.\d+)?] in [cs]. *)
Fixpoint first_number (cs : list ascii) : option (list ascii) :=
  match cs with
  | [] => None
  | _ :: r =>
      match number_at cs with
      | Some m => Some m
      | None => first_number r
      end
  end.

Definition finite_or_none (n : number) : option number :=
  if isFinite n then Some n else None.

(** The second and third strategies of the chain: the regrouping pattern,
    then the first number found anywhere in the string. *)
Definition compact_number (s : string) : option number :=
  match compact_match s with
  | Some (a, b) =>
      finite_or_none (Number_of_string (of_chars (a ++ "."%char :: b)))
  | None => None
  end.

Definition embedded_number (s : string) : option number :=
  match first_number (replace_first_comma (chars s)) with
  | Some m => finite_or_none (Number_of_string (of_chars m))
  | None => None
  end.

Definition parseMeterNumber (raw : value) : meter :=
  match raw with
  | VNum n =>
      Meter (if isFinite n then Some n else None)
            (if isFinite n then Some (RawNum n) else None)
  | VStr r =>
      let s := trim r in
      if is_empty s then Meter None None
      else
        let direct :=
          Number_of_string (of_chars (replace_first_comma (chars s))) in
        if isFinite direct then Meter (Some direct) (Some (RawStr s))
        else
          match compact_number s with
          | Some n => Meter (Some n) (Some (RawStr s))
          | None =>
              match embedded_number s with
              | Some n => Meter (Some n) (Some (RawStr s))
              | None => Meter None (Some (RawStr s))
              end
          end
  | _ => Meter None None
  end.

Record signal : Type := Signal {
  sig_rssi : option number;
  sig_snr : option number
}.

(** The RSSI and the SNR read from a gateway-reception record. *)
Definition rssi_of (item : value) : option number :=
  numOrNull (firstDefined item [keys ["rssi"]; keys ["channel_rssi"]]).

Definition snr_of (item : value) : option number :=
  numOrNull
    (firstDefined item [keys ["loRaSNR"]; keys ["loraSNR"]; keys ["snr"]]).

(** The body of the loop of [bestSignal]. *)
Definition bestSignal_step (best : signal) (item : value) : signal :=
  let r := rssi_of item in
  let s := snr_of item in
  match r with
  | None => best
  | Some rv =>
      match sig_rssi best with
      | None => Signal (Some rv) s
      | Some b => if gt rv b then Signal (Some rv) s else best
      end
  end.

Definition bestSignal (rxItems : list value) : signal :=
  fold_left bestSignal_step rxItems (Signal None None).

Record dev_eui_forms : Type := DevEui {
  hex : option string;
  base64 : option string
}.

(** [HEX16.test(s)]. *)
Definition HEX16 (s : string) : bool :=
  (List.length (chars s) =? 16)%nat && forallb is_hex (chars s).

Definition normalizeDevEui (v : value) : dev_eui_forms :=
  let s := match v with VStr r => trim r | _ => "" end in
  if is_empty s then DevEui None None
  else if HEX16 s then DevEui (Some (toLowerCase s)) None
  else
    let buf := Buffer.from_base64 s in
    if (List.length buf =? 8)%nat
    then DevEui (Some (Buffer.to_hex buf)) (Some s)
    else DevEui (Some (toLowerCase s)) None.

(** ** The JavaScript runtime *)

(** Library functions the sources call but do not define. *)
Record host : Type := Host {
  (** [String(n)] for a number [n]. *)
  Number_toString : number -> string;
  (** [JSON.parse(s)], [None] when it throws. *)
  JSON_parse : string -> option value;
  (** [JSON.stringify(v)]. *)
  JSON_stringify : value -> string;
  (** [new Date().toISOString()]. *)
  now_iso : string;
  (** [Date.now()]. *)
  Date_now : number;
  (** [new Date(s).getTime()], NaN for an invalid date. *)
  Date_getTime : string -> number;
  (** The [en-CA] rendering [YYYY-MM-DD] of an instant in a time zone;
      [None] when the formatter throws a [RangeError] (invalid instant or
      unknown zone). *)
  format_local_date : number -> string -> option string;
  (** The text SQLite keeps when a number is bound to a TEXT column. *)
  sqlite_text_of_number : number -> string
}.

Section Normaliser.

Variable H : host.

(** [String(v)]. *)
Fixpoint to_String (v : value) : string :=
  match v with
  | VUndefined => "undefined"
  | VNull => "null"
  | VBool true => "true"
  | VBool false => "false"
  | VNum n => Number_toString H n
  | VStr s => s
  | VObj _ => "[object Object]"
  | VArr items =>
      (fix join (l : list value) : string :=
         match l with
         | [] => ""
         | [x] => if nullish x then "" else to_String x
         | x :: r =>
             ((if nullish x then "" else to_String x) ++ "," ++ join r)%string
         end) items
  end.

Definition parseJsonObject (raw : value) : option (list (string * value)) :=
  match raw with
  | VStr s =>
      match JSON_parse H s with
      | Some v => asRecord v
      | None => None
      end
  | _ => None
  end.

(** [ascii.replace(/^(\d{5})(\d+)/, "$1.$2")]. *)
Definition regroup (s : string) : string :=
  let cs := chars s in
  if all_digits (firstn 6 cs) && (6 <=? List.length cs)%nat
  then of_chars (firstn 5 cs ++ "."%char :: skipn 5 cs)
  else s.

(** [x ?? y] on optional results. *)
Definition coalesce {A} (x y : option A) : option A :=
  match x with Some _ => x | None => y end.

(** [v ?? null]. *)
Definition or_null (v : value) : value := if nullish v then VNull else v.

Definition array_items (v : value) : list value :=
  match v with VArr items => items | _ => [] end.

Record parsed : Type := Parsed {
  provider : string;
  devEui : option string;
  devEuiB64 : option string;
  deviceName : value;
  applicationId : value;
  applicationName : value;
  at_ : string;
  deduplicationId : option string;
  rssi : option number;
  snr : option number;
  battery_mv : option number;
  p_meterValue : option number;
  p_meterValueRaw : option raw_meter;
  decodedObj : option (list (string * value));
  payloadObj : value
}.

Definition meter_keys : list string :=
  ["meterValue"; "meter_value"; "meter"; "reading"; "counter"; "message";
   "value"].

Definition battery_keys : list string :=
  ["battery_mv"; "batteryMv"; "battery_mV"; "battery"; "battery_voltage";
   "batteryVoltage"; "batt"; "voltage"].

(** [rxInfo] followed by [uplink_message.rx_metadata]. *)
Definition rxCandidates (up : value) : list value :=
  array_items (prop up "rxInfo")
  ++ array_items (prop (prop up "uplink_message") "rx_metadata").

Definition top_rssi (up : value) : option number :=
  numOrNull (firstDefined up [keys ["rssi"]; keys ["uplink_message"; "rssi"]]).

Definition top_snr (up : value) : option number :=
  numOrNull
    (firstDefined up
       [keys ["loRaSNR"]; keys ["loraSNR"]; keys ["snr"];
        keys ["uplink_message"; "snr"]]).

Definition devEuiRaw (up : value) : value :=
  firstDefined up
    [keys ["deviceInfo"; "devEui"];
     keys ["end_device_ids"; "dev_eui"];
     keys ["endDeviceIds"; "devEui"];
     keys ["device"; "devEui"];
     keys ["devEui"];
     keys ["devEUI"];
     keys ["dev_eui"];
     keys ["deviceEui"]].

Definition parseLoRaPayload (up : value) : parsed :=
  let provider :=
    if truthy (prop up "end_device_ids") then "ttn"
    else if truthy (prop up "deviceInfo") then "chirpstack"
    else if truthy (prop up "device") then "generic-device"
    else "generic" in
  let eui := normalizeDevEui (devEuiRaw up) in
  let deviceName :=
    or_null (firstDefined up
      [keys ["deviceInfo"; "deviceName"];
       keys ["end_device_ids"; "device_id"];
       keys ["endDeviceIds"; "deviceId"];
       keys ["device"; "name"];
       keys ["deviceName"]]) in
  let applicationId :=
    or_null (firstDefined up
      [keys ["deviceInfo"; "applicationId"];
       keys ["end_device_ids"; "application_ids"; "application_id"];
       keys ["endDeviceIds"; "applicationIds"; "applicationId"];
       keys ["applicationId"]]) in
  let applicationName :=
    or_null (firstDefined up
      [keys ["deviceInfo"; "applicationName"]; keys ["applicationName"]]) in
  let at_raw :=
    firstDefined up
      [keys ["time"]; keys ["publishedAt"]; keys ["received_at"];
       keys ["uplink_message"; "received_at"]] in
  let at_str := if nullish at_raw then now_iso H else to_String at_raw in
  let dedup :=
    firstDefined up
      [keys ["deduplicationId"]; keys ["deduplication_id"];
       keys ["uplink_message"; "f_cnt"]; keys ["f_cnt"]] in
  let sig := bestSignal (rxCandidates up) in
  let rssi := coalesce (sig_rssi sig) (top_rssi up) in
  let snr := coalesce (sig_snr sig) (top_snr up) in
  let decodedObj :=
    coalesce
      (asRecord (firstDefined up
         [keys ["object"]; keys ["decoded_payload"];
          keys ["uplink_message"; "decoded_payload"]]))
      (parseJsonObject
         (firstDefined up [keys ["objectJSON"]; keys ["objectJson"]])) in
  let meterRaw0 :=
    firstDefined up
      [keys ["meterValue"]; keys ["meter_value"]; keys ["message"];
       keys ["uplink_message"; "decoded_payload"; "meterValue"]] in
  let meterRaw1 :=
    match decodedObj with
    | Some rec =>
        if nullish meterRaw0 then findFirstKeyDeep (VObj rec) meter_keys 4
        else meterRaw0
    | None => meterRaw0
    end in
  let meterRaw2 :=
    if nullish meterRaw1 then
      match decodeBase64Ascii
              (firstDefined up
                 [keys ["data"]; keys ["frm_payload"];
                  keys ["uplink_message"; "frm_payload"];
                  keys ["payload_raw"]]) with
      | Some ascii =>
          if is_empty ascii then meterRaw1 else VStr (regroup ascii)
      | None => meterRaw1
      end
    else meterRaw1 in
  let m := parseMeterNumber meterRaw2 in
  let battery0 :=
    numOrNull (firstDefined up
      [keys ["battery_mv"]; keys ["batteryMv"];
       keys ["uplink_message"; "decoded_payload"; "battery_mv"]]) in
  let battery1 :=
    match battery0, decodedObj with
    | None, Some rec => numOrNull (findFirstKeyDeep (VObj rec) battery_keys 4)
    | _, _ => battery0
    end in
  let battery2 :=
    match battery1 with
    | Some b =>
        if gt b (of_Z 0) && lt b (of_Z 20)
        then Some (Math_round (mul b (of_Z 1000)))
        else Some b
    | None => None
    end in
  Parsed provider (hex eui) (base64 eui)
    deviceName applicationId applicationName at_str
    (if nullish dedup then None else Some (to_String dedup))
    rssi snr battery2 (meterValue m) (meterValueRaw m) decodedObj up.

End Normaliser.

(** ** Ingestion store ([db.ts]) *)

Module StoreReadingInput.
Record t : Type := Make {
  dev_eui : string;
  at_ : string;
  meter_value : number;
  meter_value_raw : option raw_meter;
  device_name : option string;
  application_id : option string;
  application_name : option string;
  deduplication_id : option string;
  battery_mv : option number;
  rssi : option number;
  snr : option number
}.
End StoreReadingInput.

Module StoreUplinkInput.
Record t : Type := Make {
  dev_eui : string;
  at_ : string;
  provider : option string;
  device_name : option string;
  application_id : option string;
  application_name : option string;
  deduplication_id : option string;
  meter_value : option number;
  meter_value_raw : option raw_meter;
  battery_mv : option number;
  rssi : option number;
  snr : option number;
  decoded_json : value;
  payload_json : value
}.
End StoreUplinkInput.

(** A row of table [readings]; the unique index is on [(dev_eui, at)]. *)
Module ReadingRow.
Record t : Type := Make {
  dev_eui : string;
  at_ : string;
  meter_value : number;
  meter_value_raw : option string;
  device_name : option string;
  application_id : option string;
  application_name : option string;
  deduplication_id : option string;
  battery_mv : option Z;
  rssi : option Z;
  snr : option number
}.
End ReadingRow.

(** A row of table [uplinks]; [id] is the AUTOINCREMENT primary key and the
    unique index is on [(dev_eui, deduplication_id)]. *)
Module UplinkRow.
Record t : Type := Make {
  id : Z;
  dev_eui : string;
  at_ : string;
  provider : option string;
  device_name : option string;
  application_id : option string;
  application_name : option string;
  deduplication_id : option string;
  meter_value : option number;
  meter_value_raw : option string;
  battery_mv : option Z;
  rssi : option Z;
  snr : option number;
  decoded_json : option string;
  payload_json : option string
}.
End UplinkRow.

Module Db.

(** The database: both tables in insertion order and the last id handed
    out by AUTOINCREMENT. *)
Record db : Type := Make {
  readings : list ReadingRow.t;
  uplinks : list UplinkRow.t;
  uplinks_seq : Z
}.

Definition empty : db := Make [] [] 0.

(** [INSERT ... ON CONFLICT(...) DO UPDATE]: the row in conflict is updated
    in place, and without a conflict the new row is appended. *)
Fixpoint upsert {A} (conflict : A -> bool) (update : A -> A) (fresh : A)
  (rows : list A) : list A :=
  match rows with
  | [] => [fresh]
  | r :: rest =>
      if conflict r then update r :: rest
      else r :: upsert conflict update fresh rest
  end.

(** Stable insertion sort, the model of [ORDER BY]. *)
Fixpoint insert_by {A} (leb : A -> A -> bool) (x : A) (l : list A) : list A :=
  match l with
  | [] => [x]
  | y :: r => if leb x y then x :: l else y :: insert_by leb x r
  end.

Definition sort_by {A} (leb : A -> A -> bool) (l : list A) : list A :=
  fold_right (insert_by leb) [] l.

Definition option_eqb (a : option string) (b : string) : bool :=
  match a with Some x => String.eqb x b | None => false end.

(** The sanitising expressions shared by [storeReading] and
    [storeUplink]. *)
Definition finite_number (v : option number) : option number :=
  match v with
  | Some x => if isFinite x then Some x else None
  | None => None
  end.

Definition rounded_integer (v : option number) : option Z :=
  match v with
  | Some x => if isFinite x then Some (round_int x) else None
  | None => None
  end.

Section Statements.

Variable H : host.

(** [v == null ? null : String(v)]. *)
Definition raw_text (v : option raw_meter) : option string :=
  match v with
  | Some (RawStr s) => Some s
  | Some (RawNum n) => Some (Number_toString H n)
  | None => None
  end.

(** [v == null ? null : JSON.stringify(v)]. *)
Definition json_text (v : value) : option string :=
  if nullish v then None else Some (JSON_stringify H v).

Definition reading_conflict (dev at_str : string) (r : ReadingRow.t) : bool :=
  String.eqb (ReadingRow.dev_eui r) dev && String.eqb (ReadingRow.at_ r) at_str.

(** [DO UPDATE SET] of [stmtInsert]: every column outside the key takes the
    excluded row's value. *)
Definition reading_update (new old : ReadingRow.t) : ReadingRow.t :=
  ReadingRow.Make
    (ReadingRow.dev_eui old) (ReadingRow.at_ old)
    (ReadingRow.meter_value new) (ReadingRow.meter_value_raw new)
    (ReadingRow.device_name new) (ReadingRow.application_id new)
    (ReadingRow.application_name new) (ReadingRow.deduplication_id new)
    (ReadingRow.battery_mv new) (ReadingRow.rssi new) (ReadingRow.snr new).

(** The row bound by [storeReading]. *)
Definition reading_row (input : StoreReadingInput.t) : ReadingRow.t :=
  ReadingRow.Make
    (StoreReadingInput.dev_eui input)
    (StoreReadingInput.at_ input)
    (StoreReadingInput.meter_value input)
    (raw_text (StoreReadingInput.meter_value_raw input))
    (StoreReadingInput.device_name input)
    (StoreReadingInput.application_id input)
    (StoreReadingInput.application_name input)
    (StoreReadingInput.deduplication_id input)
    (rounded_integer (StoreReadingInput.battery_mv input))
    (rounded_integer (StoreReadingInput.rssi input))
    (finite_number (StoreReadingInput.snr input)).

(** [stmtInsert.run]: SQLite binds a NaN as NULL, which the NOT NULL
    constraint on [meter_value] rejects; the statement then throws and
    writes nothing ([None]). *)
Definition stmtInsert (d : db) (row : ReadingRow.t) : option db :=
  match ReadingRow.meter_value row with
  | S754_nan => None
  | _ =>
      Some (Make
        (upsert
           (reading_conflict (ReadingRow.dev_eui row) (ReadingRow.at_ row))
           (reading_update row) row (readings d))
        (uplinks d) (uplinks_seq d))
  end.

Definition storeReading (d : db) (input : StoreReadingInput.t) : option db :=
  stmtInsert d (reading_row input).

Definition uplink_conflict (dev dedup : string) (r : UplinkRow.t) : bool :=
  String.eqb (UplinkRow.dev_eui r) dev
  && option_eqb (UplinkRow.deduplication_id r) dedup.

(** [DO UPDATE SET] of [stmtInsertUplink]: [id] and the key columns stay,
    every other column takes the excluded row's value. *)
Definition uplink_update (new old : UplinkRow.t) : UplinkRow.t :=
  UplinkRow.Make
    (UplinkRow.id old) (UplinkRow.dev_eui old)
    (UplinkRow.at_ new) (UplinkRow.provider new)
    (UplinkRow.device_name new) (UplinkRow.application_id new)
    (UplinkRow.application_name new) (UplinkRow.deduplication_id old)
    (UplinkRow.meter_value new) (UplinkRow.meter_value_raw new)
    (UplinkRow.battery_mv new) (UplinkRow.rssi new) (UplinkRow.snr new)
    (UplinkRow.decoded_json new) (UplinkRow.payload_json new).

(** The deduplication id bound by [storeUplink]: the inbound one, or
    ["<dev_eui>:<at>"] when that is null or empty. *)
Definition effective_dedup (input : StoreUplinkInput.t) : string :=
  match StoreUplinkInput.deduplication_id input with
  | Some s =>
      if is_empty s
      then (StoreUplinkInput.dev_eui input ++ ":"
            ++ StoreUplinkInput.at_ input)%string
      else s
  | None =>
      (StoreUplinkInput.dev_eui input ++ ":"
       ++ StoreUplinkInput.at_ input)%string
  end.

(** The row bound by [storeUplink]; [id] is the one AUTOINCREMENT would
    hand out. *)
Definition uplink_row (next : Z) (input : StoreUplinkInput.t) : UplinkRow.t :=
  UplinkRow.Make next
    (StoreUplinkInput.dev_eui input)
    (StoreUplinkInput.at_ input)
    (StoreUplinkInput.provider input)
    (StoreUplinkInput.device_name input)
    (StoreUplinkInput.application_id input)
    (StoreUplinkInput.application_name input)
    (Some (effective_dedup input))
    (finite_number (StoreUplinkInput.meter_value input))
    (raw_text (StoreUplinkInput.meter_value_raw input))
    (rounded_integer (StoreUplinkInput.battery_mv input))
    (rounded_integer (StoreUplinkInput.rssi input))
    (finite_number (StoreUplinkInput.snr input))
    (json_text (StoreUplinkInput.decoded_json input))
    (json_text (StoreUplinkInput.payload_json input)).

Definition has_uplink (dev dedup : string) (d : db) : bool :=
  existsb (uplink_conflict dev dedup) (uplinks d).

(** [stmtInsertUplink.run]: a fresh id is consumed only by an insertion. *)
Definition stmtInsertUplink (d : db) (input : StoreUplinkInput.t) : db :=
  let dev := StoreUplinkInput.dev_eui input in
  let dedup := effective_dedup input in
  let row := uplink_row (uplinks_seq d + 1) input in
  Make (readings d)
    (upsert (uplink_conflict dev dedup) (uplink_update row) row (uplinks d))
    (if has_uplink dev dedup d then uplinks_seq d else uplinks_seq d + 1).

Definition storeUplink (d : db) (input : StoreUplinkInput.t) : db :=
  stmtInsertUplink d input.

(** [ORDER BY at ASC] and [ORDER BY at ASC, id ASC]; text compares byte
    by byte. *)
Definition reading_leb (a b : ReadingRow.t) : bool :=
  String.leb (ReadingRow.at_ a) (ReadingRow.at_ b).

Definition uplink_leb (a b : UplinkRow.t) : bool :=
  String.ltb (UplinkRow.at_ a) (UplinkRow.at_ b)
  || (String.eqb (UplinkRow.at_ a) (UplinkRow.at_ b)
      && (UplinkRow.id a <=? UplinkRow.id b)).

Definition stmtAllReadingsForDevice (d : db) (devEui : string)
  : list ReadingRow.t :=
  sort_by reading_leb
    (filter (fun r => String.eqb (ReadingRow.dev_eui r) devEui) (readings d)).

Definition stmtAllUplinksForDevice (d : db) (devEui : string)
  : list UplinkRow.t :=
  sort_by uplink_leb
    (filter (fun r => String.eqb (UplinkRow.dev_eui r) devEui) (uplinks d)).

(** The filter callback of [listReadings] and [listUplinks]: an absent or
    empty bound does not constrain. *)
Definition in_range (from to : option string) (at_str : string) : bool :=
  let below :=
    match from with
    | Some f => negb (is_empty f) && String.ltb at_str f
    | None => false
    end in
  let above :=
    match to with
    | Some t => negb (is_empty t) && String.ltb t at_str
    | None => false
    end in
  negb below && negb above.

(** [listReadings] returns only the columns the statement selects. *)
Definition listReadings (d : db) (devEui : string) (from to : option string)
  : list ReadingRow.t :=
  map
    (fun r =>
       ReadingRow.Make devEui (ReadingRow.at_ r) (ReadingRow.meter_value r)
         None None None None None
         (ReadingRow.battery_mv r) (ReadingRow.rssi r) (ReadingRow.snr r))
    (filter (fun r => in_range from to (ReadingRow.at_ r))
       (stmtAllReadingsForDevice d devEui)).

Definition filtered_uplinks (d : db) (devEui : string)
  (from to : option string) : list UplinkRow.t :=
  filter (fun r => in_range from to (UplinkRow.at_ r))
    (stmtAllUplinksForDevice d devEui).

(** [listUplinks(devEui, from, to, limit = 500)] for an integer [limit]:
    [filtered.slice(Math.max(0, filtered.length - Math.max(1, limit)))]. *)
Definition listUplinks (d : db) (devEui : string) (from to : option string)
  (limit : option Z) : list UplinkRow.t :=
  let lim := match limit with Some l => l | None => 500 end in
  let filtered := filtered_uplinks d devEui from to in
  skipn
    (Z.to_nat (Z.max 0 (Z.of_nat (List.length filtered) - Z.max 1 lim)))
    filtered.

(** *** Daily consumption *)

Record DailyPoint : Type := Point {
  date : string;
  consumption : option number;
  closing : option number
}.

(** An entry of [byDate]. *)
Record bucket : Type := Bucket {
  first : option number;
  last : option number
}.

Definition getLocalDateString (iso tz : string) : option string :=
  format_local_date H (Date_getTime H iso) tz.

(** The three statements that update [byDate[date]] for a value [mv]. *)
Definition touch (mv : number) (b : option bucket) : bucket :=
  let b0 := match b with Some x => x | None => Bucket None None end in
  Bucket (match first b0 with Some f => Some f | None => Some mv end)
         (Some mv).

Fixpoint set_bucket (k : string) (b : bucket)
  (m : list (string * bucket)) : list (string * bucket) :=
  match m with
  | [] => [(k, b)]
  | (k', b') :: r =>
      if String.eqb k k' then (k, b) :: r else (k', b') :: set_bucket k b r
  end.

(** The window [[startMs, endMs]] of [dailyConsumption]. *)
Definition window (days : number) (endIso : option string)
  : number * number :=
  let endMs :=
    match endIso with
    | Some e => if is_empty e then Date_now H else Date_getTime H e
    | None => Date_now H
    end in
  let span := mul (mul (mul (mul days (of_Z 24)) (of_Z 60)) (of_Z 60))
                  (of_Z 1000) in
  (sub endMs span, endMs).

(** [t < startMs || t > endMs]. *)
Definition outside (w : number * number) (t : number) : bool :=
  lt t (fst w) || gt t (snd w).

(** The loop over the device's readings; [None] when [getLocalDateString]
    throws. *)
Fixpoint fill (w : number * number) (tz : string)
  (rows : list ReadingRow.t) (byDate : list (string * bucket))
  : option (list (string * bucket)) :=
  match rows with
  | [] => Some byDate
  | r :: rest =>
      if outside w (Date_getTime H (ReadingRow.at_ r)) then
        fill w tz rest byDate
      else
        match getLocalDateString (ReadingRow.at_ r) tz with
        | None => None
        | Some day =>
            let mv := ReadingRow.meter_value r in
            fill w tz rest
              (set_bucket day (touch mv (lookup day byDate)) byDate)
        end
  end.

Definition point_of (entry : string * bucket) : DailyPoint :=
  let '(d, b) := entry in
  let cons :=
    match first b, last b with
    | Some f, Some l => Some (sub l f)
    | _, _ => None
    end in
  Point d cons (last b).

Definition entry_leb (a b : string * bucket) : bool :=
  String.leb (fst a) (fst b).

(** [dailyConsumption(devEui, days, tz, endIso)]; [None] when a
    [RangeError] escapes. *)
Definition dailyConsumption (d : db) (devEui : string) (days : number)
  (tz : string) (endIso : option string) : option (list DailyPoint) :=
  let all := stmtAllReadingsForDevice d devEui in
  match all with
  | [] => Some []
  | _ =>
      match fill (window days endIso) tz all [] with
      | Some byDate => Some (map point_of (sort_by entry_leb byDate))
      | None => None
      end
  end.

(** *** Latest rows, device list, counts and deletions *)

(** [ORDER BY at DESC] and [ORDER BY at DESC, id DESC]. *)
Definition reading_geb (a b : ReadingRow.t) : bool := reading_leb b a.

Definition uplink_geb (a b : UplinkRow.t) : bool := uplink_leb b a.

(** [stmtLastReading.get(devEui)]: the first row in descending order of
    [at], if any. *)
Definition stmtLastReading (d : db) (devEui : string)
  : option ReadingRow.t :=
  hd_error
    (sort_by reading_geb
       (filter (fun r => String.eqb (ReadingRow.dev_eui r) devEui)
          (readings d))).

(** [stmtLastUplink.get(devEui)]. *)
Definition stmtLastUplink (d : db) (devEui : string) : option UplinkRow.t :=
  hd_error
    (sort_by uplink_geb
       (filter (fun r => String.eqb (UplinkRow.dev_eui r) devEui)
          (uplinks d))).

(** What [getLastReading] returns. *)
Record LastReading : Type := MakeLast {
  last_at : string;
  last_meter_value : number;
  last_battery_mv : option Z;
  last_rssi : option Z;
  last_snr : option number
}.

Definition getLastReading (d : db) (devEui : string) : option LastReading :=
  match stmtLastReading d devEui with
  | Some row =>
      Some (MakeLast (ReadingRow.at_ row) (ReadingRow.meter_value row)
              (ReadingRow.battery_mv row) (ReadingRow.rssi row)
              (ReadingRow.snr row))
  | None => None
  end.

Definition getLastUplink (d : db) (devEui : string) : option UplinkRow.t :=
  stmtLastUplink d devEui.

(** The rows of the [UNION ALL] of [stmtListDevices]. *)
Definition device_names (d : db) : list (string * option string) :=
  map (fun r => (ReadingRow.dev_eui r, ReadingRow.device_name r)) (readings d)
  ++ map (fun r => (UplinkRow.dev_eui r, UplinkRow.device_name r))
       (uplinks d).

(** [MAX] over a group skips NULL and compares text byte by byte. *)
Definition max_name (a b : option string) : option string :=
  match a, b with
  | Some x, Some y => Some (if String.ltb x y then y else x)
  | Some x, None => Some x
  | None, _ => b
  end.

(** [GROUP BY dev_eui] with [MAX(device_name)]: one group per device. *)
Fixpoint add_to_group (dev : string) (name : option string)
  (groups : list (string * option string)) : list (string * option string) :=
  match groups with
  | [] => [(dev, name)]
  | (dev', name') :: rest =>
      if String.eqb dev dev' then (dev', max_name name' name) :: rest
      else (dev', name') :: add_to_group dev name rest
  end.

Definition group_devices (rows : list (string * option string))
  : list (string * option string) :=
  fold_left (fun groups row => add_to_group (fst row) (snd row) groups)
    rows [].

Definition device_leb (a b : string * option string) : bool :=
  String.leb (fst a) (fst b).

(** [stmtListDevices.all()], ordered by [dev_eui]. *)
Definition listDevices (d : db) : list (string * option string) :=
  sort_by device_leb (group_devices (device_names d)).

(** The result of a deletion: the database and the two [changes]
    counts. *)
Record deletion : Type := Deleted {
  after : db;
  readingsDeleted : nat;
  uplinksDeleted : nat
}.

(** [DELETE FROM t WHERE ...]: the rows kept and the number removed. *)
Definition delete_where {A} (hit : A -> bool) (rows : list A)
  : list A * nat :=
  (filter (fun r => negb (hit r)) rows,
   List.length (filter hit rows)).

Definition deleteDevice (d : db) (devEui : string) : deletion :=
  let '(rs, nr) :=
    delete_where (fun r => String.eqb (ReadingRow.dev_eui r) devEui)
      (readings d) in
  let '(us, nu) :=
    delete_where (fun r => String.eqb (UplinkRow.dev_eui r) devEui)
      (uplinks d) in
  Deleted (Make rs us (uplinks_seq d)) nr nu.

Definition exportDeviceData (d : db) (devEui : string)
  (from to : option string) : list ReadingRow.t * list UplinkRow.t :=
  (listReadings d devEui from to,
   listUplinks d devEui from to (Some 100000)).

Inductive DeleteSource : Type :=
| SourceReadings
| SourceUplinks
| SourceBoth.

Definition on_readings (source : DeleteSource) : bool :=
  match source with SourceReadings | SourceBoth => true | _ => false end.

Definition on_uplinks (source : DeleteSource) : bool :=
  match source with SourceUplinks | SourceBoth => true | _ => false end.

(** The two [if] blocks shared by [deleteDataPoint] and
    [deleteDataRange]. *)
Definition delete_rows (d : db) (source : DeleteSource)
  (hit_reading : ReadingRow.t -> bool) (hit_uplink : UplinkRow.t -> bool)
  : deletion :=
  let '(rs, nr) :=
    if on_readings source then delete_where hit_reading (readings d)
    else (readings d, 0%nat) in
  let '(us, nu) :=
    if on_uplinks source then delete_where hit_uplink (uplinks d)
    else (uplinks d, 0%nat) in
  Deleted (Make rs us (uplinks_seq d)) nr nu.

(** [WHERE dev_eui = ? AND at = ?]. *)
Definition deleteDataPoint (d : db) (devEui at_str : string)
  (source : DeleteSource) : deletion :=
  delete_rows d source
    (fun r => String.eqb (ReadingRow.dev_eui r) devEui
              && String.eqb (ReadingRow.at_ r) at_str)
    (fun r => String.eqb (UplinkRow.dev_eui r) devEui
              && String.eqb (UplinkRow.at_ r) at_str).

(** [at >= from AND at <= to] on text. *)
Definition between (from to at_str : string) : bool :=
  String.leb from at_str && String.leb at_str to.

(** [WHERE dev_eui = ? AND at >= ? AND at <= ?]. *)
Definition deleteDataRange (d : db) (devEui from to : string)
  (source : DeleteSource) : deletion :=
  delete_rows d source
    (fun r => String.eqb (ReadingRow.dev_eui r) devEui
              && between from to (ReadingRow.at_ r))
    (fun r => String.eqb (UplinkRow.dev_eui r) devEui
              && between from to (UplinkRow.at_ r)).

(** [countTx(devEui, from, to)]: the device condition is added only for a
    non-empty [devEui]. *)
Definition countTx (d : db) (devEui : option string) (from to : string)
  : nat :=
  List.length
    (filter
       (fun r =>
          between from to (UplinkRow.at_ r)
          && match devEui with
             | Some dev =>
                 is_empty dev || String.eqb (UplinkRow.dev_eui r) dev
             | None => true
             end)
       (uplinks d)).

End Statements.
End Db.

(** ** Webhook handler *)

Module Server.

Record request : Type := Request {
  (** [req.get("X-API-Key")] and [req.get("Authorization")]. *)
  api_key_header : option string;
  authorization_header : option string;
  (** [req.body]. *)
  body : value
}.

Record response : Type := Response {
  status : Z;
  sent : string
}.

(** An entry of [lastEvents]; fields an event does not carry are absent. *)
Record event : Type := Event {
  ev_ts : string;
  ev_type : string;
  ev_provider : string;
  ev_devEui : option string;
  ev_meterValue : option number;
  ev_battery_mv : option number;
  ev_rssi : option number;
  ev_snr : option number;
  ev_at : string
}.

(** A message handed to [sseBroadcast]. *)
Record broadcast : Type := Broadcast {
  bc_devEui : string;
  bc_at : string;
  bc_meterValue : option number;
  bc_battery_mv : option number
}.

(** A line written to the console, by its tag. *)
Inductive log_line : Type :=
| LogRecv
| LogWarn
| LogStore
| LogError.

(** The mutable state the handler touches: the database, the in-memory
    ring of recent events, the messages pushed to live clients and the
    console. *)
Record state : Type := State {
  database : Db.db;
  lastEvents : list event;
  broadcasts : list broadcast;
  console : list log_line
}.

Section Handler.

Variable H : host.
(** [EXPECTED_TOKEN], read from the environment at start-up. *)
Variable EXPECTED_TOKEN : string.

Definition or_empty (v : option string) : string :=
  match v with
  | Some s => s
  | None => ""
  end.

Definition isWebhookAuthorized (req : request) : bool :=
  if is_empty EXPECTED_TOKEN then true
  else
    let apiKey := or_empty (api_key_header req) in
    let auth := or_empty (authorization_header req) in
    let bearer :=
      if String.prefix "Bearer " auth
      then trim (String.substring 7 (String.length auth - 7) auth)
      else "" in
    String.eqb apiKey EXPECTED_TOKEN || String.eqb bearer EXPECTED_TOKEN.

(** [lastEvents.push(e); if (lastEvents.length > 50) lastEvents.shift()]. *)
Definition pushEvent (events : list event) (e : event) : list event :=
  let pushed := events ++ [e] in
  if (50 <? List.length pushed)%nat then tl pushed else pushed.

(** A value bound to a TEXT parameter of a prepared statement: strings and
    null are bound as they are, a number is kept as text, and a boolean,
    an array or an object makes [run] throw a [TypeError] ([None]). *)
Definition bind_text (v : value) : option (option string) :=
  match v with
  | VUndefined | VNull => Some None
  | VStr s => Some (Some s)
  | VNum n => Some (Some (sqlite_text_of_number H n))
  | VBool _ | VArr _ | VObj _ => None
  end.

Definition object_or_null (o : option (list (string * value))) : value :=
  match o with
  | Some rec => VObj rec
  | None => VNull
  end.

(** The arguments of the calls to [storeUplink] and [storeReading]. *)
Definition uplink_input (p : parsed) (dev : string)
  (name app_id app_name : option string) : StoreUplinkInput.t :=
  StoreUplinkInput.Make dev (at_ p) (Some (provider p))
    name app_id app_name (deduplicationId p)
    (p_meterValue p) (p_meterValueRaw p)
    (battery_mv p) (rssi p) (snr p)
    (object_or_null (decodedObj p)) (payloadObj p).

Definition reading_input (p : parsed) (dev : string) (mv : number)
  (name app_id app_name : option string) : StoreReadingInput.t :=
  StoreReadingInput.Make dev (at_ p) mv (p_meterValueRaw p)
    name app_id app_name (deduplicationId p)
    (battery_mv p) (rssi p) (snr p).

Definition ok : response := Response 200 "ok".

(** The two store calls of the [try] block: [storeUplink], then
    [storeReading] when there is a meter value.  The flag tells whether
    both returned; an exception of [storeReading] leaves the uplink row
    written. *)
Definition store_calls (d : Db.db) (u : StoreUplinkInput.t)
  (r : option StoreReadingInput.t) : Db.db * bool :=
  let d1 := Db.storeUplink H d u in
  match r with
  | Some ri =>
      match Db.storeReading H d1 ri with
      | Some d2 => (d2, true)
      | None => (d1, false)
      end
  | None => (d1, true)
  end.

(** The [try] block: the store calls, then the event, the broadcast and the
    [STORE] line.  An exception leaves the block at once and the [catch]
    logs an [ERROR]. *)
Definition store_parsed (st : state) (p : parsed) (dev : string) : state :=
  match bind_text (deviceName p), bind_text (applicationId p),
        bind_text (applicationName p) with
  | Some name, Some app_id, Some app_name =>
      let '(d, returned) :=
        store_calls (database st)
          (uplink_input p dev name app_id app_name)
          (match p_meterValue p with
           | Some mv =>
               Some (reading_input p dev mv name app_id app_name)
           | None => None
           end) in
      if returned then
        State d
          (pushEvent (lastEvents st)
             (Event (now_iso H) "up" (provider p) (Some dev)
                (p_meterValue p) (battery_mv p) (rssi p) (snr p) (at_ p)))
          (broadcasts st
           ++ [Broadcast dev (at_ p) (p_meterValue p) (battery_mv p)])
          (console st ++ [LogStore])
      else
        State d (lastEvents st) (broadcasts st) (console st ++ [LogError])
  | _, _, _ =>
      State (database st) (lastEvents st) (broadcasts st)
        (console st ++ [LogError])
  end.

(** The branch taken when [!devEui] holds. *)
Definition drop_missing (st : state) (p : parsed) : state * response :=
  (State (database st)
     (pushEvent (lastEvents st)
        (Event (now_iso H) "up-missing" (provider p)
           (coalesce (devEui p) (devEuiB64 p))
           (p_meterValue p) None None None (at_ p)))
     (broadcasts st) (console st),
   ok).

Definition handleLoRaWebhook (st : state) (req : request)
  : state * response :=
  if negb (isWebhookAuthorized req)
  then
    (State (database st) (lastEvents st) (broadcasts st)
       (console st ++ [LogWarn]),
     Response 401 "unauthorized")
  else
    let up := if truthy (body req) then body req else VObj [] in
    let p := parseLoRaPayload H up in
    let st1 :=
      State (database st) (lastEvents st) (broadcasts st)
        (console st ++ [LogRecv; LogRecv]) in
    match devEui p with
    | Some dev =>
        if is_empty dev then drop_missing st1 p
        else (store_parsed st1 p dev, ok)
    | None => drop_missing st1 p
    end.

(** *** CSV export *)

(** The quotation mark. *)
Definition quote : ascii := "034"%char.

(** The test of [csvEscape]: the text holds a quotation mark, a comma or
    a line feed. *)
Definition needs_quoting (s : string) : bool :=
  existsb
    (fun c => Ascii.eqb c quote || Ascii.eqb c "," || Ascii.eqb c "010")
    (chars s).

(** The global [replace] of [csvEscape]: every quotation mark is
    doubled. *)
Fixpoint double_quotes (cs : list ascii) : list ascii :=
  match cs with
  | [] => []
  | c :: r =>
      if Ascii.eqb c quote then quote :: quote :: double_quotes r
      else c :: double_quotes r
  end.

(** [csvEscape] on the text of a field. *)
Definition csvEscape_text (s : string) : string :=
  if needs_quoting s
  then of_chars (quote :: double_quotes (chars s) ++ [quote])
  else s.

Definition csvEscape (v : value) : string :=
  match v with
  | VUndefined | VNull => ""
  | VStr s => csvEscape_text s
  | _ => csvEscape_text (JSON_stringify H v)
  end.

End Handler.
End Server.

(** ** Vocabulary of the statements *)

(** Exactly sixteen lower-case hexadecimal digits. *)
Definition lower_hex16 (s : string) : bool :=
  (List.length (chars s) =? 16)%nat && forallb is_lower_hex (chars s).

(** Number of rows that satisfy a predicate. *)
Definition count {A} (p : A -> bool) (rows : list A) : nat :=
  List.length (filter p rows).

(** What the two unique indexes guarantee. *)
Definition unique_keys (d : Db.db) : Prop :=
  (forall dev dedup,
     (count (Db.uplink_conflict dev dedup) (Db.uplinks d) <= 1)%nat)
  /\ (forall dev at_str,
        (count (Db.reading_conflict dev at_str) (Db.readings d) <= 1)%nat).

(** The uplink row and the reading row stored under a key. *)
Definition uplink_at (d : Db.db) (dev dedup : string) : option UplinkRow.t :=
  find (Db.uplink_conflict dev dedup) (Db.uplinks d).

Definition reading_at (d : Db.db) (dev at_str : string)
  : option ReadingRow.t :=
  find (Db.reading_conflict dev at_str) (Db.readings d).







(** Item and entry slots of the heap cells, counted from address [a], that
    the search has not expanded yet. *)
Fixpoint unseen_from (expanded : nat -> bool) (a : nat) (h : Heap.heap)
  : nat :=
  match h with
  | [] => 0%nat
  | c :: r =>
      ((if expanded a then 0 else Heap.cell_size c)
       + unseen_from expanded (S a) r)%nat
  end.

(** The quantity that every iteration of the loop decreases: the frames on
    the stack plus the slots of the cells not yet in [seen]. *)
Definition potential (h : Heap.heap) (st : Search.state Heap.hvalue) : nat :=
  (List.length (Search.stack st)
   + unseen_from
       (fun a => Search.has_seen Heap.hvalue Heap.same (Search.seen st)
                   (Heap.HRef a))
       0 h)%nat.

(** A heap whose first cell refers to itself and to an array that refers
    back to both cells. *)
Definition cyclic_heap : Heap.heap :=
  [Heap.CObj [("self", Heap.HRef 0); ("list", Heap.HRef 1)];
   Heap.CArr [Heap.HRef 0; Heap.HRef 1;
              Heap.HRef 2];
   Heap.CObj [("reading", Heap.HStr "42")]].

(** Total size of the documents waiting on the stack of the search. *)
Definition weight (stk : list (Search.frame value)) : nat :=
  list_sum (map (fun f => value_size (Search.fv f)) stk).


(** [req.body || {}]. *)
Definition body_or_empty (req : Server.request) : value :=
  if truthy (Server.body req) then Server.body req else VObj [].

(** A server that has stored nothing yet, and a delivery that names no
    device. *)
Definition fresh_server : Server.state := Server.State Db.empty [] [] [].

Definition anonymous_request : Server.request :=
  Server.Request None None
    (VObj [("time", VStr "2024-01-02T01:00:00.000Z");
           ("meterValue", VStr "100")]).

(** A delivery that names its device, and one whose device name is an
    object, which no statement can bind; the second carries the token. *)
Definition identified_request : Server.request :=
  Server.Request None None
    (VObj [("end_device_ids", VObj [("dev_eui", VStr "70B3D57ED0000001")]);
           ("time", VStr "2024-01-02T01:00:00.000Z");
           ("meterValue", VStr "100")]).




(** The readings of a device that [dailyConsumption] assigns to a local
    date: those inside the window whose timestamp is projected on that
    date, in the order of the store ([ORDER BY at ASC]). *)
Definition in_bucket (H : host) (w : number * number) (tz day : string)
  (r : ReadingRow.t) : bool :=
  negb (Db.outside w (Date_getTime H (ReadingRow.at_ r)))
  && match Db.getLocalDateString H (ReadingRow.at_ r) tz with
     | Some day' => String.eqb day' day
     | None => false
     end.

Definition day_readings (H : host) (d : Db.db) (devEui : string)
  (days : number) (tz : string) (endIso : option string) (day : string)
  : list ReadingRow.t :=
  filter (in_bucket H (Db.window H days endIso) tz day)
    (Db.stmtAllReadingsForDevice d devEui).

(** First and last meter value of a list of readings. *)
Definition bucket_of (rs : list ReadingRow.t) : option Db.bucket :=
  match rs with
  | [] => None
  | f :: _ =>
      Some (Db.Bucket (Some (ReadingRow.meter_value f))
              (Some (ReadingRow.meter_value (List.last rs f))))
  end.


(** ** A runtime for the worked examples

    Only its values at the inputs of the examples matter: integers are
    printed in decimal, three instants of January 2024 are parsed, and an
    instant is projected into a zone given by its offset from UTC. *)
Module Sample.

Definition integer_text (n : number) : string :=
  match n with
  | S754_nan => "NaN"
  | S754_infinity false => "Infinity"
  | S754_infinity true => "-Infinity"
  | _ => NilZero.string_of_int (Z.to_int (round_int n))
  end.

Definition instants : list (string * Z) :=
  [("2024-01-01T23:00:00.000Z", 1704150000000);
   ("2024-01-02T01:00:00.000Z", 1704157200000);
   ("2024-01-02T12:00:00.000Z", 1704196800000)].

Definition getTime (s : string) : number :=
  match lookup s instants with
  | Some ms => of_Z ms
  | None => nan
  end.

Definition zones : list (string * Z) :=
  [("UTC", 0); ("Etc/GMT-2", 7200000)].

Definition days : list (Z * string) :=
  [(19723, "2024-01-01"); (19724, "2024-01-02"); (19725, "2024-01-03")].

Definition format_date (t : number) (tz : string) : option string :=
  match lookup tz zones with
  | Some offset =>
      if isFinite t then
        let day := (round_int t + offset) / 86400000 in
        match find (fun e => fst e =? day) days with
        | Some e => Some (snd e)
        | None => None
        end
      else None
  | None => None
  end.

Definition runtime : host :=
  Host integer_text (fun _ => None) (fun _ => "{}")
    "2024-01-02T12:00:00.000Z" (of_Z 1704196800000)
    getTime format_date integer_text.

(** Two deliveries of one uplink without a deduplication id: the second
    one carries another meter value. *)
Definition delivery (mv : Z) (text : string) : StoreUplinkInput.t :=
  StoreUplinkInput.Make "70b3d57ed0000001" "2024-01-02T01:00:00.000Z"
    (Some "ttn") (Some "meter-1") (Some "app") None None
    (Some (of_Z mv)) (Some (RawStr text))
    (Some (of_Z 3600)) (Some (of_Z (-60))) (Some (of_Z 9))
    VNull (VObj []).

Definition delivered_reading (mv : Z) (text : string)
  : StoreReadingInput.t :=
  StoreReadingInput.Make "70b3d57ed0000001" "2024-01-02T01:00:00.000Z"
    (of_Z mv) (Some (RawStr text)) (Some "meter-1") (Some "app") None None
    (Some (of_Z 3600)) (Some (of_Z (-60))) (Some (of_Z 9)).

(** A database that holds meter readings of one device only. *)
Definition reading (at_str : string) (mv : Z) : ReadingRow.t :=
  ReadingRow.Make "70b3d57ed0000001" at_str (of_Z mv)
    None None None None None None None None.

Definition two_readings : Db.db :=
  Db.Make [reading "2024-01-01T23:00:00.000Z" 100;
           reading "2024-01-02T01:00:00.000Z" 105] [] 0.


(** A delivery of another device. *)
Definition delivery_of (dev : string) (mv : Z) (text : string)
  : StoreUplinkInput.t :=
  StoreUplinkInput.Make dev "2024-01-02T01:00:00.000Z"
    (Some "ttn") (Some "meter-2") (Some "app") None None
    (Some (of_Z mv)) (Some (RawStr text))
    (Some (of_Z 3600)) (Some (of_Z (-60))) (Some (of_Z 9))
    VNull (VObj []).

(** The database after the first sample reading was stored. *)
Definition one_stored : Db.db :=
  Db.Make
    [ReadingRow.Make "70b3d57ed0000001" "2024-01-02T01:00:00.000Z"
       (of_Z 100) (Some "100") (Some "meter-1") (Some "app") None None
       (Some 3600) (Some (-60)) (Some (of_Z 9))] [] 0.

End Sample.


(** The strict order behind [ORDER BY at ASC] on readings. *)
Definition reading_before (a b : ReadingRow.t) : Prop :=
  String.ltb (ReadingRow.at_ a) (ReadingRow.at_ b) = true.

(* ===================================================================== *)
(** * Part II: properties                                                 *)
(* ===================================================================== *)

(** ** Strings and buffers *)

Example Number_of_string_samples :
  Number_of_string "12.5" = S754_finite false 7036874417766400 (-49)
  /\ Number_of_string " -60 " = S754_finite true 8444249301319680 (-47)
  /\ Number_of_string "" = pos_zero
  /\ Number_of_string "0x10" = of_Z 16
  /\ Number_of_string "1e3" = of_Z 1000
  /\ Number_of_string "12,5" = nan
  /\ Number_of_string "-Infinity" = S754_infinity true
  /\ Number_of_string "1e400" = S754_infinity false
  /\ Number_of_string ".5e1" = of_Z 5
  /\ Number_of_string "5." = of_Z 5
  /\ Number_of_string "." = nan
  /\ Number_of_string "+0x10" = nan
  /\ Number_of_string "garbage" = nan.
Proof. vm_compute. repeat split; reflexivity. Qed.

Example from_base64_sample :
  Buffer.to_hex (Buffer.from_base64 "AQIDBAUGBwg=") = "0102030405060708"
  /\ Buffer.to_utf8 (Buffer.from_base64 "MTIzNDU2Nw==") = "1234567"
  /\ List.length (Buffer.from_base64 "ab") = 1%nat.
Proof. vm_compute. repeat split; reflexivity. Qed.

Lemma chars_of_chars (cs : list ascii) : chars (of_chars cs) = cs.
Proof. apply list_ascii_of_string_of_list_ascii. Qed.

Lemma of_chars_chars (s : string) : of_chars (chars s) = s.
Proof. apply string_of_list_ascii_of_string. Qed.

Lemma is_empty_true (s : string) : is_empty s = true -> s = "".
Proof. destruct s; simpl; congruence. Qed.







(** ** Meter parsing *)

Lemma finite_or_none_finite (n x : number) :
  finite_or_none n = Some x -> isFinite x = true.
Proof.
  unfold finite_or_none. destruct (isFinite n) eqn:E; congruence.
Qed.

(** C3, as the code has it: a string of digits is read directly as a
    number, so ["1234567"] gives 1234567 and ["123456"] gives 123456; the
    comma of ["12,5"] is a decimal point; the first number embedded in
    ["abc 42.3 kWh"] is 42.3; and ["garbage"] has no value while its text
    is kept as the raw representation. *)
Theorem parseMeterNumber_examples :
  parseMeterNumber (VStr "1234567")
  = Meter (Some (of_Z 1234567)) (Some (RawStr "1234567"))
  /\ parseMeterNumber (VStr "123456")
     = Meter (Some (of_Z 123456)) (Some (RawStr "123456"))
  /\ parseMeterNumber (VStr "12,5")
     = Meter (Some (of_decimal false 125 (-1))) (Some (RawStr "12,5"))
  /\ parseMeterNumber (VStr "abc 42.3 kWh")
     = Meter (Some (of_decimal false 423 (-1))) (Some (RawStr "abc 42.3 kWh"))
  /\ parseMeterNumber (VStr "garbage") = Meter None (Some (RawStr "garbage")).
Proof. vm_compute. repeat split; reflexivity. Qed.

(** C3 as stated fails: ["1234567"] is not mapped to 1234.567 and
    ["123456"] is not mapped to 12345.6. *)
Lemma parseMeterNumber_no_regrouping :
  meterValue (parseMeterNumber (VStr "1234567"))
  <> Some (of_decimal false 1234567 (-3))
  /\ meterValue (parseMeterNumber (VStr "123456"))
     <> Some (of_decimal false 123456 (-1)).
Proof. vm_compute. split; discriminate. Qed.



(** ** Device identity *)



(** ** Rounding *)




(** ** Upserts *)

Section Upsert.

Context {A : Type}.
Variables (conflict : A -> bool) (update : A -> A) (fresh : A).


Lemma count_upsert (p : A -> bool) (rows : list A) :
  (forall r, conflict r = true -> p (update r) = p r) ->
  count p (Db.upsert conflict update fresh rows)
  = (count p rows
     + (if existsb conflict rows then 0
        else if p fresh then 1 else 0))%nat.
Proof.
  intros Hu. unfold count.
  induction rows as [|r rows IH]; simpl.
  - destruct (p fresh); reflexivity.
  - destruct (conflict r) eqn:E; simpl.
    + rewrite (Hu r E). destruct (p r); simpl; lia.
    + destruct (p r); simpl; rewrite IH; lia.
Qed.

Lemma existsb_count (rows : list A) :
  existsb conflict rows = true -> (1 <= count conflict rows)%nat.
Proof.
  unfold count. induction rows as [|r rows IH]; simpl; [discriminate|].
  destruct (conflict r); simpl; [lia | auto].
Qed.

Lemma find_existsb (rows : list A) :
  existsb conflict rows
  = match find conflict rows with Some _ => true | None => false end.
Proof.
  induction rows as [|r rows IH]; simpl; [reflexivity|].
  destruct (conflict r); simpl; auto.
Qed.

End Upsert.

Lemma option_eqb_eq (a : option string) (b : string) :
  Db.option_eqb a b = true <-> a = Some b.
Proof.
  destruct a as [x|]; simpl; [|split; discriminate].
  rewrite String.eqb_eq. split; congruence.
Qed.

Lemma uplink_conflict_iff (dev dedup : string) (r : UplinkRow.t) :
  Db.uplink_conflict dev dedup r = true
  <-> UplinkRow.dev_eui r = dev /\ UplinkRow.deduplication_id r = Some dedup.
Proof.
  unfold Db.uplink_conflict.
  now rewrite andb_true_iff, String.eqb_eq, option_eqb_eq.
Qed.

Lemma reading_conflict_iff (dev at_str : string) (r : ReadingRow.t) :
  Db.reading_conflict dev at_str r = true
  <-> ReadingRow.dev_eui r = dev /\ ReadingRow.at_ r = at_str.
Proof.
  unfold Db.reading_conflict.
  now rewrite andb_true_iff, !String.eqb_eq.
Qed.

Lemma uplink_update_key (dev dedup : string) (new old : UplinkRow.t) :
  Db.uplink_conflict dev dedup (Db.uplink_update new old)
  = Db.uplink_conflict dev dedup old.
Proof. reflexivity. Qed.

Lemma reading_update_key (dev at_str : string) (new old : ReadingRow.t) :
  Db.reading_conflict dev at_str (Db.reading_update new old)
  = Db.reading_conflict dev at_str old.
Proof. reflexivity. Qed.



Lemma uplink_row_conflict (H : host) (n : Z) (u : StoreUplinkInput.t) :
  Db.uplink_conflict (StoreUplinkInput.dev_eui u) (Db.effective_dedup u)
    (Db.uplink_row H n u) = true.
Proof.
  apply uplink_conflict_iff. split; reflexivity.
Qed.

Lemma reading_row_conflict (H : host) (r : StoreReadingInput.t) :
  Db.reading_conflict (StoreReadingInput.dev_eui r) (StoreReadingInput.at_ r)
    (Db.reading_row H r) = true.
Proof.
  apply reading_conflict_iff. split; reflexivity.
Qed.

(** ** The store *)

Lemma not_existsb_count {A} (p : A -> bool) (rows : list A) :
  existsb p rows = false -> count p rows = 0%nat.
Proof.
  unfold count. induction rows as [|r rows IH]; simpl; [reflexivity|].
  destruct (p r); simpl; [discriminate | auto].
Qed.

Lemma existsb_pointwise {A} (p q : A -> bool) (rows : list A) :
  (forall r, p r = q r) -> existsb p rows = existsb q rows.
Proof.
  intros E. induction rows as [|r rows IH]; simpl; [reflexivity|].
  now rewrite E, IH.
Qed.

Lemma count_upsert_unique {A} (conflict p : A -> bool) (update : A -> A)
  (fresh : A) (rows : list A) :
  (forall r, p (update r) = p r) ->
  (p fresh = true -> forall r, conflict r = p r) ->
  (count p rows <= 1)%nat ->
  (count p (Db.upsert conflict update fresh rows) <= 1)%nat.
Proof.
  intros Hu Hsame Hle.
  rewrite count_upsert by auto.
  destruct (existsb conflict rows) eqn:Ex; [lia|].
  destruct (p fresh) eqn:Ep; [|lia].
  rewrite (existsb_pointwise _ _ rows (Hsame eq_refl)) in Ex.
  rewrite (not_existsb_count _ _ Ex). lia.
Qed.

Lemma uplink_conflict_same (dev dedup dev' dedup' : string)
  (row : UplinkRow.t) :
  Db.uplink_conflict dev dedup row = true ->
  Db.uplink_conflict dev' dedup' row = true ->
  forall r, Db.uplink_conflict dev dedup r = Db.uplink_conflict dev' dedup' r.
Proof.
  intros H1 H2 r.
  apply uplink_conflict_iff in H1 as [<- E1], H2 as [<- E2].
  rewrite E1 in E2. now injection E2 as ->.
Qed.

Lemma reading_conflict_same (dev at_str dev' at_str' : string)
  (row : ReadingRow.t) :
  Db.reading_conflict dev at_str row = true ->
  Db.reading_conflict dev' at_str' row = true ->
  forall r,
    Db.reading_conflict dev at_str r = Db.reading_conflict dev' at_str' r.
Proof.
  intros H1 H2 r.
  apply reading_conflict_iff in H1 as [<- <-], H2 as [<- <-]. reflexivity.
Qed.

Lemma unique_keys_empty : unique_keys Db.empty.
Proof. split; intros; simpl; unfold count; simpl; lia. Qed.

Lemma storeUplink_unique (H : host) (d : Db.db) (u : StoreUplinkInput.t) :
  unique_keys d -> unique_keys (Db.storeUplink H d u).
Proof.
  intros [Hu Hr]. split; [|exact Hr].
  intros dev dedup. simpl.
  apply count_upsert_unique; auto.
  intros Hp r. eapply uplink_conflict_same; eauto.
  apply uplink_row_conflict.
Qed.

Lemma storeReading_some (H : host) (d d' : Db.db)
  (r : StoreReadingInput.t) :
  Db.storeReading H d r = Some d' ->
  d' = Db.Make
         (Db.upsert
            (Db.reading_conflict (StoreReadingInput.dev_eui r)
               (StoreReadingInput.at_ r))
            (Db.reading_update (Db.reading_row H r)) (Db.reading_row H r)
            (Db.readings d))
         (Db.uplinks d) (Db.uplinks_seq d).
Proof.
  unfold Db.storeReading, Db.stmtInsert.
  destruct (ReadingRow.meter_value _); try discriminate;
    intros [= <-]; reflexivity.
Qed.

Lemma storeReading_unique (H : host) (d d' : Db.db)
  (r : StoreReadingInput.t) :
  unique_keys d -> Db.storeReading H d r = Some d' -> unique_keys d'.
Proof.
  intros [Hu Hr] E. apply storeReading_some in E as ->.
  split; [exact Hu|]. intros dev at_str. simpl.
  apply count_upsert_unique; auto.
  intros Hp r0. eapply reading_conflict_same; eauto.
  apply reading_row_conflict.
Qed.










Example store_twice_rows :
  let d1 :=
    fst (Server.store_calls Sample.runtime Db.empty
           (Sample.delivery 100 "100")
           (Some (Sample.delivered_reading 100 "100"))) in
  let d2 :=
    fst (Server.store_calls Sample.runtime d1 (Sample.delivery 105 "105")
           (Some (Sample.delivered_reading 105 "105"))) in
  map (fun r => (UplinkRow.id r, UplinkRow.meter_value r,
                 UplinkRow.deduplication_id r)) (Db.uplinks d2)
  = [(1, Some (of_Z 105),
      Some "70b3d57ed0000001:2024-01-02T01:00:00.000Z")]
  /\ map ReadingRow.meter_value (Db.readings d2) = [of_Z 105]
  /\ Db.uplinks_seq d2 = 1.
Proof. vm_compute. repeat split; reflexivity. Qed.

(** ** Ordering of text *)

Lemma ascii_compare_lt_trans (a b c : ascii) :
  Ascii.compare a b = Lt -> Ascii.compare b c = Lt -> Ascii.compare a c = Lt.
Proof.
  unfold Ascii.compare. rewrite !N.compare_lt_iff. apply N.lt_trans.
Qed.

Lemma string_compare_lt_trans (a b c : string) :
  String.compare a b = Lt -> String.compare b c = Lt ->
  String.compare a c = Lt.
Proof.
  revert b c. induction a as [|x a IH]; intros [|y b] [|z c]; simpl;
    try congruence.
  destruct (Ascii.compare x y) eqn:Exy; try discriminate.
  - apply Ascii.compare_eq_iff in Exy as ->.
    destruct (Ascii.compare y z); try congruence. apply IH.
  - destruct (Ascii.compare y z) eqn:Eyz; try discriminate.
    + apply Ascii.compare_eq_iff in Eyz as <-. now rewrite Exy.
    + now rewrite (ascii_compare_lt_trans x y z Exy Eyz).
Qed.

Lemma string_ltb_lt (a b : string) :
  String.ltb a b = true <-> String.compare a b = Lt.
Proof.
  unfold String.ltb. destruct (String.compare a b); split; congruence.
Qed.

Lemma string_compare_refl (a : string) : String.compare a a = Eq.
Proof.
  pose proof (String.compare_antisym a a) as E.
  destruct (String.compare a a); simpl in E; congruence.
Qed.

Lemma string_eqb_compare (a b : string) :
  String.eqb a b = true <-> String.compare a b = Eq.
Proof.
  rewrite String.eqb_eq. split.
  - intros ->. apply string_compare_refl.
  - apply String.compare_eq_iff.
Qed.

Lemma string_leb_ltb_eqb (a b : string) :
  String.leb a b = String.ltb a b || String.eqb a b.
Proof.
  unfold String.leb, String.ltb.
  destruct (String.compare a b) eqn:E; simpl.
  - symmetry. now apply string_eqb_compare.
  - reflexivity.
  - destruct (String.eqb a b) eqn:E'; [|reflexivity].
    apply string_eqb_compare in E'. congruence.
Qed.

Lemma string_trichotomy (a b : string) :
  String.ltb a b = true \/ a = b \/ String.ltb b a = true.
Proof.
  rewrite !string_ltb_lt, (String.compare_antisym b a).
  destruct (String.compare a b) eqn:E; simpl; auto.
  right. left. now apply String.compare_eq_iff.
Qed.

Lemma string_ltb_trans (a b c : string) :
  String.ltb a b = true -> String.ltb b c = true -> String.ltb a c = true.
Proof. rewrite !string_ltb_lt. apply string_compare_lt_trans. Qed.

Lemma string_leb_trans (a b c : string) :
  String.leb a b = true -> String.leb b c = true -> String.leb a c = true.
Proof.
  rewrite !string_leb_ltb_eqb, !orb_true_iff, !String.eqb_eq.
  intros [Hab | ->] [Hbc | ->]; auto.
  left. eapply string_ltb_trans; eauto.
Qed.

(** ** Sorting *)

Section SortBy.

Context {A : Type}.
Variable leb : A -> A -> bool.
Hypothesis leb_total : forall a b, leb a b = true \/ leb b a = true.
Hypothesis leb_trans :
  forall a b c, leb a b = true -> leb b c = true -> leb a c = true.

Local Abbreviation le := (fun a b : A => leb a b = true).

Lemma insert_by_in (x y : A) (l : list A) :
  In y (Db.insert_by leb x l) <-> y = x \/ In y l.
Proof.
  induction l as [|z l IH]; simpl; [intuition congruence|].
  destruct (leb x z); simpl; [intuition congruence|].
  rewrite IH. intuition congruence.
Qed.

Lemma sort_by_in (y : A) (l : list A) : In y (Db.sort_by leb l) <-> In y l.
Proof.
  induction l as [|x l IH]; simpl; [reflexivity|].
  rewrite insert_by_in, IH. intuition congruence.
Qed.

Lemma insert_by_sorted (x : A) (l : list A) :
  StronglySorted le l -> StronglySorted le (Db.insert_by leb x l).
Proof.
  induction 1 as [|z l Hs IH Hz]; simpl.
  - repeat constructor.
  - destruct (leb x z) eqn:E.
    + constructor; [now constructor|].
      constructor; [exact E|].
      rewrite Forall_forall in *. intros w Hw.
      eapply leb_trans; [exact E | now apply Hz].
    + constructor; [exact IH|].
      rewrite Forall_forall in *. intros w Hw.
      apply insert_by_in in Hw as [-> | Hw]; [|now apply Hz].
      destruct (leb_total x z) as [C | C]; [congruence | exact C].
Qed.

Lemma sort_by_sorted (l : list A) : StronglySorted le (Db.sort_by leb l).
Proof.
  induction l as [|x l IH]; simpl; [constructor | now apply insert_by_sorted].
Qed.

Lemma filter_sorted (p : A -> bool) (l : list A) :
  StronglySorted le l -> StronglySorted le (filter p l).
Proof.
  induction 1 as [|z l Hs IH Hz]; simpl; [constructor|].
  destruct (p z); [|exact IH].
  constructor; [exact IH|].
  rewrite Forall_forall in *. intros w Hw.
  apply filter_In in Hw as [Hw _]. now apply Hz.
Qed.


End SortBy.

Lemma uplink_leb_total (a b : UplinkRow.t) :
  Db.uplink_leb a b = true \/ Db.uplink_leb b a = true.
Proof.
  unfold Db.uplink_leb.
  destruct (string_trichotomy (UplinkRow.at_ a) (UplinkRow.at_ b))
    as [L | [E | L]].
  - left. now rewrite L.
  - rewrite E, String.eqb_refl.
    destruct (Z.le_ge_cases (UplinkRow.id a) (UplinkRow.id b)) as [C | C];
      [left | right]; apply Z.leb_le in C; rewrite C;
      now rewrite orb_true_r.
  - right. now rewrite L.
Qed.

Lemma uplink_leb_trans (a b c : UplinkRow.t) :
  Db.uplink_leb a b = true -> Db.uplink_leb b c = true ->
  Db.uplink_leb a c = true.
Proof.
  unfold Db.uplink_leb.
  rewrite !orb_true_iff, !andb_true_iff, !String.eqb_eq, !Z.leb_le.
  intros [L1 | [E1 I1]] [L2 | [E2 I2]].
  - left. eapply string_ltb_trans; eauto.
  - left. now rewrite <- E2.
  - left. now rewrite E1.
  - right. split; [congruence | lia].
Qed.

(** ** Listing uplinks *)



(** The bounds are closed: a timestamp equal to a bound is in range. *)
Lemma in_range_closed (from to : option string) (at_str : string) :
  Db.in_range from to at_str = true
  <-> match from with
      | Some f => is_empty f = true \/ String.leb f at_str = true
      | None => True
      end
      /\ match to with
         | Some t => is_empty t = true \/ String.leb at_str t = true
         | None => True
         end.
Proof.
  assert (Hnot : forall a b, String.ltb a b = false <-> String.leb b a = true).
  { intros a b. unfold String.ltb, String.leb.
    rewrite (String.compare_antisym b a).
    destruct (String.compare a b); simpl; split; congruence. }
  unfold Db.in_range. rewrite andb_true_iff, !negb_true_iff.
  assert (Hb : forall (o : option string) (lo : bool) x y,
             (match o with
              | Some f =>
                  negb (is_empty f)
                  && String.ltb (if lo then x f else y f)
                       (if lo then y f else x f)
              | None => false
              end = false)
             <-> match o with
                 | Some f =>
                     is_empty f = true
                     \/ String.leb (if lo then y f else x f)
                          (if lo then x f else y f) = true
                 | None => True
                 end).
  { intros [f|] lo x y; [|tauto].
    rewrite andb_false_iff, negb_false_iff, Hnot. tauto. }
  pose proof (Hb from true (fun _ => at_str) (fun f => f)) as H1.
  pose proof (Hb to false (fun _ => at_str) (fun t => t)) as H2.
  simpl in H1, H2. destruct from, to; tauto.
Qed.



(** ** Daily consumption *)

Lemma lookup_set_bucket (k k' : string) (b : Db.bucket)
  (m : list (string * Db.bucket)) :
  lookup k' (Db.set_bucket k b m)
  = if String.eqb k' k then Some b else lookup k' m.
Proof.
  induction m as [|[k0 b0] m IH]; simpl.
  - destruct (String.eqb k' k); reflexivity.
  - destruct (String.eqb k k0) eqn:E; simpl.
    + apply String.eqb_eq in E as <-.
      destruct (String.eqb k' k); reflexivity.
    + rewrite IH. destruct (String.eqb k' k) eqn:E'; [|reflexivity].
      apply String.eqb_eq in E' as ->. now rewrite E.
Qed.

Lemma set_bucket_keys (k : string) (b : Db.bucket)
  (m : list (string * Db.bucket)) :
  NoDup (map fst m) ->
  NoDup (map fst (Db.set_bucket k b m))
  /\ forall x, In x (map fst (Db.set_bucket k b m))
               <-> x = k \/ In x (map fst m).
Proof.
  induction m as [|[k0 b0] m IH]; simpl; intros Hn.
  - split; [repeat constructor; auto | intuition congruence].
  - inversion Hn as [|? ? Hnot Hn']; subst.
    destruct (String.eqb k k0) eqn:E; simpl.
    + apply String.eqb_eq in E as ->.
      split; [now constructor | intuition congruence].
    + destruct (IH Hn') as [IH1 IH2]. split.
      * constructor; [|exact IH1]. rewrite IH2.
        apply String.eqb_neq in E. intuition congruence.
      * intros x. rewrite IH2. intuition congruence.
Qed.

Lemma lookup_in_nodup {A} (k : string) (v : A) (m : list (string * A)) :
  NoDup (map fst m) -> In (k, v) m -> lookup k m = Some v.
Proof.
  induction m as [|[k0 v0] m IH]; simpl; [contradiction|].
  intros Hn [E | Hin]; inversion Hn as [|? ? Hnot Hn']; subst.
  - injection E as -> ->. now rewrite String.eqb_refl.
  - destruct (String.eqb k k0) eqn:E; [|auto].
    apply String.eqb_eq in E as ->.
    exfalso. apply Hnot. now apply (in_map fst) in Hin.
Qed.

Lemma bucket_of_snoc (rs : list ReadingRow.t) (r : ReadingRow.t) :
  bucket_of (rs ++ [r])
  = Some (Db.touch (ReadingRow.meter_value r) (bucket_of rs)).
Proof.
  destruct rs as [|f rs]; [reflexivity|].
  unfold bucket_of, Db.touch.
  change ((f :: rs) ++ [r]) with (f :: (rs ++ [r])). cbn [Db.first].
  rewrite app_comm_cons, last_last. reflexivity.
Qed.

Section Fill.

Variable H : host.
Variable w : number * number.
Variable tz : string.

Local Abbreviation sel day rows := (filter (in_bucket H w tz day) rows).

Lemma fill_buckets (rows pre : list ReadingRow.t)
  (byDate out : list (string * Db.bucket)) :
  (forall day, lookup day byDate = bucket_of (sel day pre)) ->
  NoDup (map fst byDate) ->
  Db.fill H w tz rows byDate = Some out ->
  (forall day, lookup day out = bucket_of (sel day (pre ++ rows)))
  /\ NoDup (map fst out).
Proof.
  revert pre byDate.
  induction rows as [|r rows IH]; intros pre byDate Hinv Hn; simpl.
  - intros [= <-]. now rewrite app_nil_r.
  - replace (pre ++ r :: rows) with ((pre ++ [r]) ++ rows)
      by now rewrite <- app_assoc.
    destruct (Db.outside w (Date_getTime H (ReadingRow.at_ r))) eqn:Eo.
    + apply IH; [|exact Hn].
      intros day. rewrite filter_app. simpl.
      unfold in_bucket at 2. rewrite Eo. simpl.
      rewrite app_nil_r. apply Hinv.
    + destruct (Db.getLocalDateString H (ReadingRow.at_ r) tz)
        as [day0|] eqn:Ed; [|discriminate].
      apply IH; [|now apply set_bucket_keys].
      intros day. rewrite lookup_set_bucket.
      rewrite filter_app. simpl.
      unfold in_bucket at 2. rewrite Eo, Ed. simpl.
      rewrite (String.eqb_sym day0 day).
      destruct (String.eqb day day0) eqn:E.
      * apply String.eqb_eq in E as ->.
        rewrite Hinv. symmetry. apply bucket_of_snoc.
      * rewrite app_nil_r. apply Hinv.
Qed.

End Fill.





(** ** Signal selection *)





Lemma numOrNull_finite (v : value) (n : number) :
  numOrNull v = Some n -> isFinite n = true.
Proof.
  destruct v; simpl; try discriminate.
  - destruct (isFinite n0) eqn:E; [|discriminate]. now intros [= <-].
  - destruct (isFinite _) eqn:E; [|discriminate]. now intros [= <-].
Qed.






(** ** Keyword search: depth *)

Section SearchDepth.

Variable node : Type.
Variable view : node -> shape node.
Variable same : node -> node -> bool.
Variable wanted : list string.
Variable maxDepth : nat.
Variable root : node.

Local Abbreviation frame := (Search.frame node).
Local Abbreviation at_depth := (Search.at_depth node view root).
Local Abbreviation skips := (Search.skips node view same maxDepth).

Lemma push_items_in (items : list node) (d : nat) (stk : list frame)
  (f : frame) :
  In f (Search.push_items node items d stk) ->
  In f stk \/ exists item, In item items /\ f = Search.Frame item (S d).
Proof.
  unfold Search.push_items. revert stk.
  induction items as [|x items IH]; simpl; intros stk Hin; [now left|].
  apply IH in Hin as [[<- | Hin] | (item & Hi & ->)]; eauto.
Qed.

Lemma push_items_length (items : list node) (d : nat) (stk : list frame) :
  List.length (Search.push_items node items d stk)
  = (List.length items + List.length stk)%nat.
Proof.
  unfold Search.push_items. revert stk.
  induction items as [|x items IH]; simpl; intros stk; [reflexivity|].
  rewrite IH. simpl. lia.
Qed.

Lemma scan_entries_in (entries : list (string * node)) (d : nat)
  (stk stk' : list frame) (f : frame) :
  Search.scan_entries node view wanted entries d stk = inr stk' ->
  In f stk' ->
  In f stk
  \/ exists k val, In (k, val) entries /\ f = Search.Frame val (S d).
Proof.
  revert stk. induction entries as [|[k val] entries IH]; simpl; intros stk.
  - intros [= <-]. now left.
  - destruct (_ && _); [discriminate|]. intros Hs Hin.
    destruct (IH _ Hs Hin) as [[<- | Hin'] | (k' & val' & Hi & ->)]; eauto 6.
Qed.

Lemma scan_entries_length (entries : list (string * node)) (d : nat)
  (stk stk' : list frame) :
  Search.scan_entries node view wanted entries d stk = inr stk' ->
  List.length stk' = (List.length entries + List.length stk)%nat.
Proof.
  revert stk. induction entries as [|[k val] entries IH]; simpl; intros stk.
  - now intros [= <-].
  - destruct (_ && _); [discriminate|]. intros Hs.
    rewrite (IH _ Hs). simpl. lia.
Qed.

Lemma scan_entries_found (entries : list (string * node)) (d : nat)
  (stk : list frame) (v : node) :
  Search.scan_entries node view wanted entries d stk = inl v ->
  exists k,
    In (k, v) entries
    /\ Search.is_wanted wanted k = true
    /\ Search.is_nullish node view v = false.
Proof.
  revert stk. induction entries as [|[k val] entries IH]; simpl; intros stk;
    [discriminate|].
  destruct (Search.is_wanted wanted k && _) eqn:E.
  - intros [= <-]. apply andb_true_iff in E as [E1 E2].
    apply negb_true_iff in E2. eauto.
  - intros Hs. destruct (IH _ Hs) as (k' & Hin & Hw). eauto.
Qed.

(** The depth recorded in a frame is the length of a path from the root to
    its node. *)
Lemma reachable_depths (st : Search.state node) :
  Search.reachable node view same wanted maxDepth root st ->
  forall f, In f (Search.stack st) ->
            at_depth (Search.fv f) (Search.fdepth f).
Proof.
  induction 1 as [|st st' Hr IH Hstep].
  - simpl. intros f [<- | []]. constructor.
  - unfold Search.step in Hstep.
    destruct (Search.stack st) as [|f0 rest] eqn:Es; [discriminate|].
    assert (IH0 : at_depth (Search.fv f0) (Search.fdepth f0))
      by (apply IH; now left).
    assert (IHr : forall f, In f rest ->
                            at_depth (Search.fv f) (Search.fdepth f))
      by (intros f Hf; apply IH; now right).
    destruct (Search.skips _ _ _ _ _ f0).
    { injection Hstep as <-. exact IHr. }
    destruct (view (Search.fv f0)) as [| |items|entries] eqn:Ev.
    + injection Hstep as <-. exact IHr.
    + injection Hstep as <-. exact IHr.
    + injection Hstep as <-. simpl. intros f Hf.
      apply push_items_in in Hf as [Hf | (item & Hi & ->)]; [auto|].
      simpl. eapply Search.depth_child; [exact IH0|].
      unfold Search.child. now rewrite Ev.
    + destruct (Search.scan_entries _ _ _ _ _ _) as [v|stk] eqn:Esc;
        [discriminate|].
      injection Hstep as <-. simpl. intros f Hf.
      destruct (scan_entries_in _ _ _ _ f Esc Hf)
        as [Hf' | (k & val & Hi & ->)]; [auto|].
      simpl. eapply Search.depth_child; [exact IH0|].
      unfold Search.child. rewrite Ev. eauto.
Qed.

(** No node enters [seen] twice. *)
Lemma reachable_seen_once (st : Search.state node) :
  Search.reachable node view same wanted maxDepth root st ->
  ForallOrdPairs (fun a b => same a b = false) (Search.seen st).
Proof.
  induction 1 as [|st st' Hr IH Hstep]; [constructor|].
  unfold Search.step in Hstep.
  destruct (Search.stack st) as [|f0 rest]; [discriminate|].
  destruct (Search.skips _ _ _ _ _ f0) eqn:Esk.
  { now injection Hstep as <-. }
  assert (Hnew : ForallOrdPairs (fun a b => same a b = false)
                   (Search.fv f0 :: Search.seen st)).
  { constructor; [|exact IH].
    unfold Search.skips in Esk.
    apply orb_false_iff in Esk as [Esk _].
    apply orb_false_iff in Esk as [_ Esk].
    unfold Search.has_seen in Esk.
    apply Forall_forall. intros x Hx.
    destruct (same (Search.fv f0) x) eqn:E; [|reflexivity].
    assert (existsb (same (Search.fv f0)) (Search.seen st) = true)
      by (apply existsb_exists; eauto).
    congruence. }
  destruct (view (Search.fv f0)) as [| |items|entries];
    try (now injection Hstep as <-).
  destruct (Search.scan_entries _ _ _ _ _ _); [discriminate|].
  now injection Hstep as <-.
Qed.

(** A value returned by the loop is the value of a wanted key in an object
    that the loop expanded. *)
Lemma run_returns (fuel : nat) (st : Search.state node) (v : node) :
  Search.reachable node view same wanted maxDepth root st ->
  Search.run node view same wanted maxDepth fuel st = Some (Some v) ->
  exists st' f rest entries k,
    Search.reachable node view same wanted maxDepth root st'
    /\ Search.stack st' = f :: rest
    /\ skips (Search.seen st') f = false
    /\ view (Search.fv f) = ShRecord entries
    /\ In (k, v) entries
    /\ Search.is_wanted wanted k = true.
Proof.
  revert st. induction fuel as [|fuel IH]; simpl; intros st Hr;
    [discriminate|].
  destruct (Search.step node view same wanted maxDepth st) as [st'|r] eqn:Es.
  - apply IH. eapply Search.reach_step; eauto.
  - intros [= ->]. unfold Search.step in Es.
    destruct (Search.stack st) as [|f rest] eqn:Est; [discriminate|].
    destruct (Search.skips _ _ _ _ _ f) eqn:Esk; [discriminate|].
    destruct (view (Search.fv f)) as [| |items|entries] eqn:Ev;
      try discriminate.
    destruct (Search.scan_entries _ _ _ _ _ _) as [val|] eqn:Esc;
      [|discriminate].
    injection Es as ->.
    apply scan_entries_found in Esc as (k & Hin & Hw & _).
    exists st, f, rest, entries, k. auto 7.
Qed.

End SearchDepth.

(** ** Keyword search: termination on heap documents *)

Lemma unseen_from_mono (s1 s2 : nat -> bool) (a : nat) (h : Heap.heap) :
  (forall x, s1 x = true -> s2 x = true) ->
  (unseen_from s2 a h <= unseen_from s1 a h)%nat.
Proof.
  intros Hsub. revert a. induction h as [|c h IH]; intros a; simpl; [lia|].
  specialize (IH (S a)).
  destruct (s1 a) eqn:E1; [rewrite (Hsub a E1); lia|].
  destruct (s2 a); lia.
Qed.

Lemma unseen_from_drop (s1 s2 : nat -> bool) (base a : nat) (h : Heap.heap)
  (c : Heap.cell) :
  (forall x, s1 x = true -> s2 x = true) ->
  nth_error h a = Some c ->
  s1 (base + a)%nat = false -> s2 (base + a)%nat = true ->
  (unseen_from s2 base h + Heap.cell_size c <= unseen_from s1 base h)%nat.
Proof.
  intros Hsub. revert base a.
  induction h as [|c0 h IH]; intros base a Hn H1 H2;
    [destruct a; discriminate|].
  destruct a as [|a]; simpl in *.
  - injection Hn as ->. rewrite Nat.add_0_r in H1, H2. rewrite H1, H2.
    pose proof (unseen_from_mono s1 s2 (S base) h Hsub). lia.
  - specialize (IH (S base) a Hn).
    rewrite Nat.add_succ_r in H1, H2. specialize (IH H1 H2).
    destruct (s1 base) eqn:E1; [rewrite (Hsub base E1); lia|].
    destruct (s2 base); lia.
Qed.

Lemma unseen_from_none (a : nat) (h : Heap.heap) :
  unseen_from (fun _ => false) a h = Heap.slots h.
Proof.
  unfold Heap.slots. revert a.
  induction h as [|c h IH]; intros a; simpl; [reflexivity|].
  now rewrite IH.
Qed.

Section HeapSearch.

Variable h : Heap.heap.
Variable wanted : list string.
Variable maxDepth : nat.

Local Abbreviation step :=
  (Search.step Heap.hvalue (Heap.view h) Heap.same wanted maxDepth).
Local Abbreviation run :=
  (Search.run Heap.hvalue (Heap.view h) Heap.same wanted maxDepth).
Local Abbreviation has_seen := (Search.has_seen Heap.hvalue Heap.same).

Lemma potential_seen (stk : list (Search.frame Heap.hvalue))
  (sn : list Heap.hvalue) (v : Heap.hvalue) :
  (potential h (Search.State stk (v :: sn))
   <= potential h (Search.State stk sn))%nat.
Proof.
  unfold potential. simpl. apply Nat.add_le_mono_l, unseen_from_mono.
  intros x Hx. unfold Search.has_seen in *. simpl. rewrite Hx.
  apply orb_true_r.
Qed.

Lemma potential_expand (stk : list (Search.frame Heap.hvalue))
  (sn : list Heap.hvalue) (a : nat) (c : Heap.cell) :
  nth_error h a = Some c ->
  has_seen sn (Heap.HRef a) = false ->
  (potential h (Search.State stk (Heap.HRef a :: sn)) + Heap.cell_size c
   <= potential h (Search.State stk sn))%nat.
Proof.
  intros Hn Hs. unfold potential. simpl.
  rewrite <- Nat.add_assoc. apply Nat.add_le_mono_l.
  apply (unseen_from_drop _ _ 0 a h c); simpl; auto.
  - intros x Hx. unfold Search.has_seen in *. simpl. rewrite Hx.
    apply orb_true_r.
  - unfold Search.has_seen. simpl. now rewrite Nat.eqb_refl.
Qed.

(** Every iteration that does not return decreases the potential. *)
Lemma step_decreases (st st' : Search.state Heap.hvalue) :
  step st = Search.Continue st' -> (potential h st' < potential h st)%nat.
Proof.
  unfold Search.step. destruct st as [stk sn]. simpl.
  destruct stk as [|f rest]; [discriminate|].
  assert (Hpop : forall sn0,
             (potential h (Search.State rest sn0)
              < potential h (Search.State (f :: rest) sn0))%nat)
    by (intros sn0; unfold potential; simpl; lia).
  destruct (Search.skips _ _ _ _ sn f) eqn:Esk.
  { intros [= <-]. apply Hpop. }
  assert (Hunseen : has_seen sn (Search.fv f) = false).
  { unfold Search.skips in Esk.
    apply orb_false_iff in Esk as [Esk _].
    now apply orb_false_iff in Esk as [_ Esk]. }
  assert (Hscalar : (potential h (Search.State rest (Search.fv f :: sn))
                     < potential h (Search.State (f :: rest) sn))%nat).
  { eapply Nat.le_lt_trans; [apply potential_seen | apply Hpop]. }
  destruct (Heap.view h (Search.fv f)) as [| |items|entries] eqn:Ev;
    try (intros [= <-]; exact Hscalar).
  - intros [= <-].
    destruct (Search.fv f) as [| | | | |a] eqn:Ef; try discriminate.
    simpl in Ev. destruct (nth_error h a) as [[items'|entries']|] eqn:En;
      try discriminate.
    injection Ev as ->.
    pose proof (potential_expand rest sn a _ En Hunseen) as Hp.
    unfold potential in *. simpl in *.
    rewrite push_items_length. lia.
  - destruct (Search.scan_entries _ _ _ _ _ _) as [v|stk'] eqn:Esc;
      [discriminate|].
    intros [= <-].
    destruct (Search.fv f) as [| | | | |a] eqn:Ef; try discriminate.
    simpl in Ev. destruct (nth_error h a) as [[items'|entries']|] eqn:En;
      try discriminate.
    injection Ev as ->.
    pose proof (potential_expand rest sn a _ En Hunseen) as Hp.
    apply scan_entries_length in Esc.
    unfold potential in *. simpl in *. rewrite Esc. lia.
Qed.

(** With more fuel than the potential the loop returns. *)
Lemma run_returns_within (fuel : nat) (st : Search.state Heap.hvalue) :
  (potential h st < fuel)%nat -> exists r, run fuel st = Some r.
Proof.
  revert st. induction fuel as [|fuel IH]; intros st Hp; [lia|].
  simpl.
  destruct (step st) as [st'|r] eqn:Es; [|eauto].
  apply IH. apply step_decreases in Es. lia.
Qed.

End HeapSearch.

(** C9: on every heap document, shared or self-referential cells included,
    the search returns within a number of iterations that depends on the
    size of the heap only; no node enters the [seen] set twice; every node
    the loop expands lies at the end of a path of at most [maxDepth] edges
    from the root; and a value it returns is the value of a wanted key of
    such a node. *)
Theorem findFirstKeyDeep_terminates (h : Heap.heap) (root : Heap.hvalue)
  (wanted : list string) (maxDepth : nat) :
  (exists r, Heap.findFirstKeyDeep h root wanted maxDepth = Some r)
  /\ (forall st,
        Search.reachable Heap.hvalue (Heap.view h) Heap.same wanted maxDepth
          root st ->
        ForallOrdPairs (fun a b => Heap.same a b = false) (Search.seen st)
        /\ forall f rest,
             Search.stack st = f :: rest ->
             Search.skips Heap.hvalue (Heap.view h) Heap.same maxDepth
               (Search.seen st) f = false ->
             (Search.fdepth f <= maxDepth)%nat
             /\ Search.at_depth Heap.hvalue (Heap.view h) root
                  (Search.fv f) (Search.fdepth f))
  /\ (forall v,
        Heap.findFirstKeyDeep h root wanted maxDepth = Some (Some v) ->
        exists parent d k entries,
          (d <= maxDepth)%nat
          /\ Search.at_depth Heap.hvalue (Heap.view h) root parent d
          /\ Heap.view h parent = ShRecord entries
          /\ In (k, v) entries
          /\ Search.is_wanted wanted k = true).
Proof.
  assert (Hexp : forall st,
             Search.reachable Heap.hvalue (Heap.view h) Heap.same wanted
               maxDepth root st ->
             forall f rest,
               Search.stack st = f :: rest ->
               Search.skips Heap.hvalue (Heap.view h) Heap.same maxDepth
                 (Search.seen st) f = false ->
               (Search.fdepth f <= maxDepth)%nat
               /\ Search.at_depth Heap.hvalue (Heap.view h) root
                    (Search.fv f) (Search.fdepth f)).
  { intros st Hr f rest Es Esk. split.
    - unfold Search.skips in Esk. apply orb_false_iff in Esk as [_ Esk].
      apply Nat.ltb_ge in Esk. exact Esk.
    - eapply reachable_depths; [exact Hr|]. rewrite Es. now left. }
  split; [|split].
  - apply run_returns_within. unfold potential. simpl.
    rewrite unseen_from_none. lia.
  - intros st Hr. split; [|now apply Hexp].
    eapply reachable_seen_once; exact Hr.
  - intros v Hv. unfold Heap.findFirstKeyDeep in Hv.
    apply run_returns with (root := root) in Hv; [|constructor].
    destruct Hv as (st & f & rest & entries & k & Hr & Es & Esk & Ev
                    & Hin & Hw).
    destruct (Hexp st Hr f rest Es Esk) as [Hd Hp].
    exists (Search.fv f), (Search.fdepth f), k, entries. auto.
Qed.

Example findFirstKeyDeep_cyclic :
  Heap.findFirstKeyDeep cyclic_heap (Heap.HRef 0) ["reading"] 4
  = Some (Some (Heap.HStr "42"))
  /\ Heap.findFirstKeyDeep cyclic_heap (Heap.HRef 0) ["absent"] 4
     = Some None
  /\ Heap.findFirstKeyDeep cyclic_heap (Heap.HRef 0) ["reading"] 1
     = Some None.
Proof. vm_compute. repeat split; reflexivity. Qed.

(** ** Keyword search: decoded documents *)

Lemma value_size_pos (v : value) : (1 <= value_size v)%nat.
Proof. destruct v; simpl; lia. Qed.

Lemma weight_push_items (items : list value) (d : nat)
  (stk : list (Search.frame value)) :
  weight (Search.push_items value items d stk)
  = (list_sum (map value_size items) + weight stk)%nat.
Proof.
  unfold Search.push_items, weight. revert stk.
  induction items as [|x items IH]; simpl; intros stk; [reflexivity|].
  rewrite IH. simpl. lia.
Qed.

Lemma weight_scan_entries (wanted : list string)
  (entries : list (string * value)) (d : nat)
  (stk stk' : list (Search.frame value)) :
  Search.scan_entries value view_value wanted entries d stk = inr stk' ->
  weight stk'
  = (list_sum (map (fun kv => value_size (snd kv)) entries) + weight stk)%nat.
Proof.
  unfold weight. revert stk.
  induction entries as [|[k val] entries IH]; simpl; intros stk.
  - now intros [= <-].
  - destruct (_ && _); [discriminate|]. intros Hs.
    rewrite (IH _ Hs). simpl. lia.
Qed.

Lemma tree_step_decreases (wanted : list string) (maxDepth : nat)
  (st st' : Search.state value) :
  Search.step value view_value same_value wanted maxDepth st
  = Search.Continue st' ->
  (weight (Search.stack st') < weight (Search.stack st))%nat.
Proof.
  unfold Search.step. destruct (Search.stack st) as [|f rest]; [discriminate|].
  assert (Hpop : (weight rest < weight (f :: rest))%nat).
  { unfold weight. simpl. pose proof (value_size_pos (Search.fv f)). lia. }
  destruct (Search.skips _ _ _ _ _ f); [now intros [= <-]|].
  destruct (Search.fv f) as [| | | | |items|entries] eqn:Ef; simpl;
    try (now intros [= <-]).
  - intros [= <-]. simpl. rewrite weight_push_items.
    unfold weight. simpl. rewrite Ef. simpl. lia.
  - destruct (Search.scan_entries _ _ _ _ _ _) as [v|stk] eqn:Esc;
      [discriminate|].
    intros [= <-]. simpl. rewrite (weight_scan_entries _ _ _ _ _ Esc).
    unfold weight. simpl. rewrite Ef. simpl. lia.
Qed.

(** The fuel given to the search of a decoded document is never used up. *)
Lemma tree_run_returns (wanted : list string) (maxDepth fuel : nat)
  (st : Search.state value) :
  (weight (Search.stack st) < fuel)%nat ->
  exists r,
    Search.run value view_value same_value wanted maxDepth fuel st = Some r.
Proof.
  revert st. induction fuel as [|fuel IH]; intros st Hw; [lia|]. simpl.
  destruct (Search.step _ _ _ _ _ st) as [st'|r] eqn:Es; [|eauto].
  apply IH. apply tree_step_decreases in Es. lia.
Qed.

Lemma findFirstKeyDeep_fuel (root : value) (wanted : list string)
  (maxDepth : nat) :
  exists r,
    Search.run value view_value same_value wanted maxDepth
      (S (value_size root)) (Search.init value root) = Some r.
Proof.
  apply tree_run_returns. unfold weight. simpl. lia.
Qed.

(** ** Webhook handler *)

Lemma normalizeDevEui_nonempty (v : value) (s : string) :
  hex (normalizeDevEui v) = Some s -> is_empty s = false.
Proof.
  unfold normalizeDevEui.
  set (t := match v with VStr r => trim r | _ => "" end).
  destruct (is_empty t) eqn:Et; [discriminate|].
  assert (Hlow : is_empty (toLowerCase t) = false).
  { unfold toLowerCase. rewrite <- (of_chars_chars t) in Et.
    destruct (chars t); simpl in *; [discriminate | reflexivity]. }
  destruct (HEX16 t); simpl; [now intros [= <-]|].
  destruct (List.length (Buffer.from_base64 t) =? 8)%nat eqn:Eb; simpl;
    [|now intros [= <-]].
  intros [= <-]. apply Nat.eqb_eq in Eb.
  destruct (Buffer.from_base64 t); [discriminate | reflexivity].
Qed.

(** A device identity is missing exactly when the first non-null candidate
    field is not a string or is blank. *)
Lemma devEui_missing (H : host) (up : value) :
  devEui (parseLoRaPayload H up) = None
  <-> match devEuiRaw up with
      | VStr r => is_empty (trim r) = true
      | _ => True
      end.
Proof.
  change (devEui (parseLoRaPayload H up))
    with (hex (normalizeDevEui (devEuiRaw up))).
  unfold normalizeDevEui.
  destruct (devEuiRaw up) as [| | | |r| |]; simpl; try tauto.
  destruct (is_empty (trim r)); simpl; [tauto|].
  destruct (HEX16 (trim r)); simpl; [split; discriminate|].
  destruct (_ =? 8)%nat; simpl; split; discriminate.
Qed.



Example handler_stores_identified :
  let req :=
    Server.Request None None
      (VObj [("end_device_ids", VObj [("dev_eui", VStr "70B3D57ED0000001")]);
             ("time", VStr "2024-01-02T01:00:00.000Z");
             ("meterValue", VStr "100")]) in
  let st := fst (Server.handleLoRaWebhook Sample.runtime "" fresh_server req) in
  map UplinkRow.dev_eui (Db.uplinks (Server.database st))
  = ["70b3d57ed0000001"]
  /\ map ReadingRow.meter_value (Db.readings (Server.database st))
     = [of_Z 100]
  /\ Server.console st = [Server.LogRecv; Server.LogRecv; Server.LogStore].
Proof. vm_compute. repeat split; reflexivity. Qed.

(* ===================================================================== *)
(** * Part III: further properties of the store and of the server        *)
(* ===================================================================== *)

(** ** Writing twice, and writing next to other keys *)

Section UpsertMore.

Context {A : Type}.
Variables (conflict : A -> bool) (update : A -> A) (fresh : A).

Lemma upsert_exists (rows : list A) :
  conflict fresh = true ->
  (forall r, conflict r = true -> conflict (update r) = true) ->
  existsb conflict (Db.upsert conflict update fresh rows) = true.
Proof.
  intros Hf Hu. induction rows as [|r rows IH]; simpl.
  - now rewrite Hf.
  - destruct (conflict r) eqn:E; simpl; [now rewrite (Hu r E)|].
    now rewrite E.
Qed.

Lemma upsert_again (update' : A -> A) (fresh' : A) (rows : list A) :
  conflict fresh = true ->
  update' fresh = fresh ->
  (forall r, conflict r = true ->
             conflict (update r) = true /\ update' (update r) = update r) ->
  Db.upsert conflict update' fresh' (Db.upsert conflict update fresh rows)
  = Db.upsert conflict update fresh rows.
Proof.
  intros Hf Hfix Hu. induction rows as [|r rows IH]; simpl.
  - now rewrite Hf, Hfix.
  - destruct (conflict r) eqn:E; simpl.
    + destruct (Hu r E) as [-> ->]. reflexivity.
    + now rewrite E, IH.
Qed.

Lemma find_upsert_other (p : A -> bool) (rows : list A) :
  p fresh = false ->
  (forall r, conflict r = true -> p r = false /\ p (update r) = false) ->
  find p (Db.upsert conflict update fresh rows) = find p rows.
Proof.
  intros Hf Hu. induction rows as [|r rows IH]; simpl.
  - now rewrite Hf.
  - destruct (conflict r) eqn:E; simpl.
    + destruct (Hu r E) as [-> ->]. reflexivity.
    + now rewrite IH.
Qed.


End UpsertMore.


(** X2: a reading input that was stored is stored again without any
    change to the database. *)
Theorem storeReading_idempotent (H : host) (d d1 : Db.db)
  (r : StoreReadingInput.t) :
  Db.storeReading H d r = Some d1 -> Db.storeReading H d1 r = Some d1.
Proof.
  intros E. pose proof (storeReading_some H d d1 r E) as ->.
  unfold Db.storeReading, Db.stmtInsert in *.
  destruct (ReadingRow.meter_value (Db.reading_row H r)); try discriminate;
    cbn [Db.readings Db.uplinks Db.uplinks_seq]; f_equal; f_equal;
    (apply upsert_again;
     [apply (reading_row_conflict H r)
     | reflexivity
     | intros r0 Hr0; split; [exact Hr0 | reflexivity]]).
Qed.

Lemma storeReading_idempotent_witness :
  Db.storeReading Sample.runtime Db.empty (Sample.delivered_reading 100 "100")
  = Some Sample.one_stored
  /\ Db.storeReading Sample.runtime Sample.one_stored
       (Sample.delivered_reading 100 "100") = Some Sample.one_stored.
Proof.
  split; [reflexivity|].
  apply (storeReading_idempotent Sample.runtime Db.empty). reflexivity.
Defined.

Lemma uplink_conflict_other (dev dedup dev' dedup' : string)
  (r : UplinkRow.t) :
  (String.eqb dev' dev && String.eqb dedup' dedup) = false ->
  Db.uplink_conflict dev dedup r = true ->
  Db.uplink_conflict dev' dedup' r = false.
Proof.
  intros Hne Hc. apply uplink_conflict_iff in Hc as [Hd Hk].
  destruct (Db.uplink_conflict dev' dedup' r) eqn:E; [|reflexivity].
  apply uplink_conflict_iff in E as [Hd' Hk'].
  rewrite Hd in Hd'. rewrite Hk in Hk'. injection Hk' as ->. subst dev'.
  now rewrite !String.eqb_refl in Hne.
Qed.

Lemma reading_conflict_other (dev at_str dev' at_str' : string)
  (r : ReadingRow.t) :
  (String.eqb dev' dev && String.eqb at_str' at_str) = false ->
  Db.reading_conflict dev at_str r = true ->
  Db.reading_conflict dev' at_str' r = false.
Proof.
  intros Hne Hc. apply reading_conflict_iff in Hc as [Hd Ha].
  destruct (Db.reading_conflict dev' at_str' r) eqn:E; [|reflexivity].
  apply reading_conflict_iff in E as [Hd' Ha'].
  rewrite Hd in Hd'. rewrite Ha in Ha'. subst.
  now rewrite !String.eqb_refl in Hne.
Qed.

(** X3: a write touches its own key only.  [storeUplink] leaves the
    readings table and the uplink row of every other (device,
    deduplication id) pair as they were, and [storeReading] leaves the
    uplinks table and the reading row of every other (device, timestamp)
    pair as they were. *)
Theorem store_leaves_other_keys (H : host) (d : Db.db)
  (u : StoreUplinkInput.t) (r : StoreReadingInput.t)
  (dev dedup at_str : string) :
  (String.eqb dev (StoreUplinkInput.dev_eui u)
   && String.eqb dedup (Db.effective_dedup u)) = false ->
  (String.eqb dev (StoreReadingInput.dev_eui r)
   && String.eqb at_str (StoreReadingInput.at_ r)) = false ->
  Db.readings (Db.storeUplink H d u) = Db.readings d
  /\ uplink_at (Db.storeUplink H d u) dev dedup = uplink_at d dev dedup
  /\ match Db.storeReading H d r with
     | Some d' =>
         Db.uplinks d' = Db.uplinks d
         /\ Db.uplinks_seq d' = Db.uplinks_seq d
         /\ reading_at d' dev at_str = reading_at d dev at_str
     | None => True
     end.
Proof.
  intros Hu Hr. split; [reflexivity|]. split.
  - unfold uplink_at. simpl. apply find_upsert_other.
    + eapply uplink_conflict_other; [exact Hu | apply uplink_row_conflict].
    + intros r0 Hc. rewrite uplink_update_key.
      split; eapply uplink_conflict_other; eauto.
  - destruct (Db.storeReading H d r) as [d'|] eqn:E; [|exact I].
    apply storeReading_some in E as ->. simpl.
    split; [reflexivity|]. split; [reflexivity|].
    unfold reading_at. simpl. apply find_upsert_other.
    + eapply reading_conflict_other; [exact Hr | apply reading_row_conflict].
    + intros r0 Hc. rewrite reading_update_key.
      split; eapply reading_conflict_other; eauto.
Qed.

Lemma store_leaves_other_keys_witness :
  let d := Db.storeUplink Sample.runtime Sample.one_stored
             (Sample.delivery 100 "100") in
  uplink_at
    (Db.storeUplink Sample.runtime d
       (Sample.delivery_of "70b3d57ed0000002" 7 "7"))
    "70b3d57ed0000001" "70b3d57ed0000001:2024-01-02T01:00:00.000Z"
  = uplink_at d "70b3d57ed0000001"
      "70b3d57ed0000001:2024-01-02T01:00:00.000Z"
  /\ uplink_at d "70b3d57ed0000001"
       "70b3d57ed0000001:2024-01-02T01:00:00.000Z"
     = Some (Db.uplink_row Sample.runtime 1 (Sample.delivery 100 "100")).
Proof.
  split; [|reflexivity].
  apply (store_leaves_other_keys Sample.runtime
           (Db.storeUplink Sample.runtime Sample.one_stored
              (Sample.delivery 100 "100"))
           (Sample.delivery_of "70b3d57ed0000002" 7 "7")
           (Sample.delivered_reading 100 "100")
           "70b3d57ed0000001" "70b3d57ed0000001:2024-01-02T01:00:00.000Z"
           "2024-01-01T23:00:00.000Z"
           eq_refl eq_refl).
Defined.



(** ** The webhook handler as a whole *)

Lemma parseMeterNumber_finite (raw : value) (n : number) :
  meterValue (parseMeterNumber raw) = Some n -> isFinite n = true.
Proof.
  destruct raw as [| | b | x | r | items | entries]; simpl; try discriminate.
  - destruct (isFinite x) eqn:E; [|discriminate]. now intros [= <-].
  - destruct (is_empty (trim r)); simpl; [discriminate|].
    destruct (isFinite _) eqn:E; simpl; [now intros [= <-]|].
    destruct (compact_number (trim r)) as [m|] eqn:Ec; simpl.
    + intros [= <-]. unfold compact_number in Ec.
      destruct (compact_match (trim r)) as [[a b]|]; [|discriminate].
      eapply finite_or_none_finite; eauto.
    + destruct (embedded_number (trim r)) as [m|] eqn:Ee; simpl;
        [|discriminate].
      intros [= <-]. unfold embedded_number in Ee.
      destruct (first_number _); [|discriminate].
      eapply finite_or_none_finite; eauto.
Qed.

Lemma parsed_meter_finite (H : host) (up : value) (n : number) :
  p_meterValue (parseLoRaPayload H up) = Some n -> isFinite n = true.
Proof. apply parseMeterNumber_finite. Qed.

Lemma store_calls_unique (H : host) (d : Db.db) (u : StoreUplinkInput.t)
  (r : option StoreReadingInput.t) :
  unique_keys d -> unique_keys (fst (Server.store_calls H d u r)).
Proof.
  intros Hd. unfold Server.store_calls.
  pose proof (storeUplink_unique H d u Hd) as Hu.
  destruct r as [ri|]; [|exact Hu].
  destruct (Db.storeReading H (Db.storeUplink H d u) ri) as [d'|] eqn:E;
    [|exact Hu].
  simpl. eapply storeReading_unique; eauto.
Qed.

Lemma store_parsed_database (H : host) (st : Server.state) (p : parsed)
  (dev : string) :
  Server.database (Server.store_parsed H st p dev) = Server.database st
  \/ exists u r,
       Server.database (Server.store_parsed H st p dev)
       = fst (Server.store_calls H (Server.database st) u r).
Proof.
  unfold Server.store_parsed.
  destruct (Server.bind_text H (deviceName p)) as [name|]; [|now left].
  destruct (Server.bind_text H (applicationId p)) as [app_id|]; [|now left].
  destruct (Server.bind_text H (applicationName p)) as [app_name|];
    [|now left].
  right.
  exists (Server.uplink_input p dev name app_id app_name),
    (match p_meterValue p with
     | Some mv => Some (Server.reading_input p dev mv name app_id app_name)
     | None => None
     end).
  destruct (Server.store_calls _ _ _ _) as [d0 [|]]; reflexivity.
Qed.

(** The three outcomes of [handleLoRaWebhook]. *)
Lemma handleLoRaWebhook_cases (H : host) (token : string)
  (st : Server.state) (req : Server.request) :
  let st1 :=
    Server.State (Server.database st) (Server.lastEvents st)
      (Server.broadcasts st)
      (Server.console st ++ [Server.LogRecv; Server.LogRecv]) in
  let p := parseLoRaPayload H (body_or_empty req) in
  (Server.isWebhookAuthorized token req = false
   /\ Server.handleLoRaWebhook H token st req
      = (Server.State (Server.database st) (Server.lastEvents st)
           (Server.broadcasts st) (Server.console st ++ [Server.LogWarn]),
         Server.Response 401 "unauthorized"))
  \/ (Server.isWebhookAuthorized token req = true
      /\ devEui p = None
      /\ Server.handleLoRaWebhook H token st req
         = Server.drop_missing H st1 p)
  \/ (Server.isWebhookAuthorized token req = true
      /\ exists dev,
           devEui p = Some dev
           /\ Server.handleLoRaWebhook H token st req
              = (Server.store_parsed H st1 p dev, Server.ok)).
Proof.
  cbv zeta. unfold Server.handleLoRaWebhook, body_or_empty.
  destruct (Server.isWebhookAuthorized token req); simpl negb; cbv iota;
    [|now left].
  right. cbv zeta.
  set (p := parseLoRaPayload H _).
  destruct (devEui p) as [dev|] eqn:Ed; [|left; auto].
  right. split; [reflexivity|]. exists dev. split; [reflexivity|].
  unfold p in Ed. apply normalizeDevEui_nonempty in Ed. now rewrite Ed.
Qed.

(** X5: whatever the request, [handleLoRaWebhook] leaves a database that
    satisfies the two unique indexes in a state that satisfies them. *)
Theorem handleLoRaWebhook_unique (H : host) (token : string)
  (st : Server.state) (req : Server.request) :
  unique_keys (Server.database st) ->
  unique_keys (Server.database (fst (Server.handleLoRaWebhook H token st req))).
Proof.
  intros Hd.
  destruct (handleLoRaWebhook_cases H token st req)
    as [[_ ->] | [(_ & _ & ->) | (_ & dev & _ & ->)]]; simpl; auto.
  destruct (store_parsed_database H
              (Server.State (Server.database st) (Server.lastEvents st)
                 (Server.broadcasts st)
                 (Server.console st ++ [Server.LogRecv; Server.LogRecv]))
              (parseLoRaPayload H (body_or_empty req)) dev)
    as [-> | (u & r & ->)]; simpl; auto.
  now apply store_calls_unique.
Qed.

Lemma handleLoRaWebhook_unique_witness :
  unique_keys
    (Server.database
       (fst (Server.handleLoRaWebhook Sample.runtime "" fresh_server
               identified_request))).
Proof.
  apply (handleLoRaWebhook_unique Sample.runtime "" fresh_server
           identified_request).
  split; intros; unfold count; simpl; lia.
Defined.







(** ** Listing, counting and deleting *)

Lemma insert_by_perm {A} (leb : A -> A -> bool) (x : A) (l : list A) :
  Permutation (Db.insert_by leb x l) (x :: l).
Proof.
  induction l as [|y l IH]; simpl; [reflexivity|].
  destruct (leb x y); [reflexivity|].
  rewrite IH. apply perm_swap.
Qed.

Lemma sort_by_perm {A} (leb : A -> A -> bool) (l : list A) :
  Permutation (Db.sort_by leb l) l.
Proof.
  induction l as [|x l IH]; simpl; [reflexivity|].
  rewrite insert_by_perm. now constructor.
Qed.


Lemma filter_filter {A} (p q : A -> bool) (l : list A) :
  filter p (filter q l) = filter (fun x => p x && q x) l.
Proof.
  induction l as [|x l IH]; simpl; [reflexivity|].
  destruct (q x); simpl; rewrite ?andb_true_r, ?andb_false_r;
    [destruct (p x)|]; now rewrite IH.
Qed.

Lemma filter_pointwise {A} (p q : A -> bool) (l : list A) :
  (forall x, In x l -> p x = q x) -> filter p l = filter q l.
Proof.
  induction l as [|x l IH]; simpl; intros E; [reflexivity|].
  rewrite (E x (or_introl eq_refl)), IH; auto.
Qed.






(** X10: the count for one device never exceeds the count over all
    devices for the same bounds, and an empty device name counts like no
    device at all. *)
Theorem countTx_device_le_all (d : Db.db) (dev from to : string) :
  (Db.countTx d (Some dev) from to <= Db.countTx d None from to)%nat
  /\ Db.countTx d (Some "") from to = Db.countTx d None from to.
Proof.
  split; [|reflexivity].
  unfold Db.countTx.
  induction (Db.uplinks d) as [|r rows IH]; simpl; [lia|].
  destruct (Db.between from to (UplinkRow.at_ r)); simpl; [|exact IH].
  destruct (is_empty dev || String.eqb (UplinkRow.dev_eui r) dev); simpl; lia.
Qed.

Lemma filter_split_length {A} (p : A -> bool) (l : list A) :
  (List.length (filter p l) + List.length (filter (fun r => negb (p r)) l)
   = List.length l)%nat.
Proof.
  induction l as [|x l IH]; simpl; [reflexivity|].
  destruct (p x); simpl; lia.
Qed.

Lemma filter_none {A} (p : A -> bool) (l : list A) :
  (forall x, In x l -> p x = false) -> filter p l = [].
Proof.
  induction l as [|x l IH]; simpl; intros E; [reflexivity|].
  rewrite (E x (or_introl eq_refl)). auto.
Qed.

Lemma filter_after_delete {A} (p hit : A -> bool) (l : list A) :
  (forall x, p x = true -> hit x = true) ->
  filter p (filter (fun r => negb (hit r)) l) = [].
Proof.
  intros E. apply filter_none. intros x Hx.
  apply filter_In in Hx as [_ Hx]. apply negb_true_iff in Hx.
  destruct (p x) eqn:Ep; [|reflexivity]. rewrite (E x Ep) in Hx. discriminate.
Qed.

Lemma filter_keeps_others {A} (p hit : A -> bool) (l : list A) :
  (forall x, p x = true -> hit x = false) ->
  filter p (filter (fun r => negb (hit r)) l) = filter p l.
Proof.
  intros E. rewrite filter_filter. apply filter_pointwise.
  intros x _. destruct (p x) eqn:Ep; [|reflexivity].
  now rewrite (E x Ep).
Qed.

(** X11: the numbers reported by [deleteDataRange] are the numbers of rows
    that left each table; the uplinks reported are those [countTx] counted
    for the device and the bounds before the call, and afterwards it counts
    none; the AUTOINCREMENT counter is not reset. *)
Theorem deleteDataRange_counts (d : Db.db) (dev from to : string)
  (source : Db.DeleteSource) :
  is_empty dev = false ->
  let r := Db.deleteDataRange d dev from to source in
  (Db.readingsDeleted r + List.length (Db.readings (Db.after r))
   = List.length (Db.readings d))%nat
  /\ (Db.uplinksDeleted r + List.length (Db.uplinks (Db.after r))
      = List.length (Db.uplinks d))%nat
  /\ Db.uplinksDeleted r
     = (if Db.on_uplinks source then Db.countTx d (Some dev) from to
        else 0%nat)
  /\ Db.countTx (Db.after r) (Some dev) from to
     = (if Db.on_uplinks source then 0%nat
        else Db.countTx d (Some dev) from to)
  /\ Db.uplinks_seq (Db.after r) = Db.uplinks_seq d.
Proof.
  intros Hd. cbv zeta.
  assert (Hsame : forall rows,
             filter (fun r => Db.between from to (UplinkRow.at_ r)
                              && (is_empty dev
                                  || String.eqb (UplinkRow.dev_eui r) dev))
               rows
             = filter (fun r => String.eqb (UplinkRow.dev_eui r) dev
                                && Db.between from to (UplinkRow.at_ r))
                 rows).
  { intros rows. apply filter_pointwise. intros x _.
    rewrite Hd. simpl. apply andb_comm. }
  unfold Db.deleteDataRange, Db.delete_rows, Db.delete_where, Db.countTx.
  destruct source; simpl; rewrite ?Hsame;
    repeat split; try apply filter_split_length; try lia;
    rewrite filter_after_delete; auto.
Qed.

Lemma deleteDataRange_counts_witness :
  let d := Db.storeUplink Sample.runtime Sample.two_readings
             (Sample.delivery 100 "100") in
  let r := Db.deleteDataRange d "70b3d57ed0000001" "2024-01-02" "2024-01-03"
             Db.SourceBoth in
  Db.readingsDeleted r = 1%nat
  /\ Db.uplinksDeleted r = 1%nat
  /\ Db.countTx (Db.after r) (Some "70b3d57ed0000001")
       "2024-01-02" "2024-01-03" = 0%nat.
Proof.
  cbv zeta.
  destruct (deleteDataRange_counts
              (Db.storeUplink Sample.runtime Sample.two_readings
                 (Sample.delivery 100 "100"))
              "70b3d57ed0000001" "2024-01-02" "2024-01-03" Db.SourceBoth
              eq_refl) as (_ & _ & _ & W & _).
  split; [reflexivity|]. split; [reflexivity | exact W].
Defined.



(** X13: a deletion is scoped.  [deleteDataRange] with source [readings]
    leaves the uplinks table untouched and with source [uplinks] leaves the
    readings table untouched, and with any source the listings of every
    other device are as before. *)
Theorem deleteDataRange_scoped (d : Db.db) (dev dev' from to : string)
  (source : Db.DeleteSource) (f t : option string) (limit : option Z) :
  String.eqb dev' dev = false ->
  let d' := Db.after (Db.deleteDataRange d dev from to source) in
  Db.uplinks (Db.after (Db.deleteDataRange d dev from to Db.SourceReadings))
  = Db.uplinks d
  /\ Db.readings (Db.after (Db.deleteDataRange d dev from to Db.SourceUplinks))
     = Db.readings d
  /\ Db.listReadings d' dev' f t = Db.listReadings d dev' f t
  /\ Db.listUplinks d' dev' f t limit = Db.listUplinks d dev' f t limit.
Proof.
  intros Hne. cbv zeta.
  split; [reflexivity|]. split; [reflexivity|].
  assert (Hr : Db.stmtAllReadingsForDevice
                 (Db.after (Db.deleteDataRange d dev from to source)) dev'
               = Db.stmtAllReadingsForDevice d dev').
  { unfold Db.stmtAllReadingsForDevice, Db.deleteDataRange, Db.delete_rows,
      Db.delete_where.
    destruct source; simpl; try reflexivity; f_equal;
      apply filter_keeps_others; intros x Hx;
      apply String.eqb_eq in Hx; rewrite Hx, (String.eqb_sym dev' dev) in *;
      now rewrite Hne. }
  assert (Hu : Db.stmtAllUplinksForDevice
                 (Db.after (Db.deleteDataRange d dev from to source)) dev'
               = Db.stmtAllUplinksForDevice d dev').
  { unfold Db.stmtAllUplinksForDevice, Db.deleteDataRange, Db.delete_rows,
      Db.delete_where.
    destruct source; simpl; try reflexivity; f_equal;
      apply filter_keeps_others; intros x Hx;
      apply String.eqb_eq in Hx; rewrite Hx, (String.eqb_sym dev' dev) in *;
      now rewrite Hne. }
  unfold Db.listReadings, Db.listUplinks, Db.filtered_uplinks.
  now rewrite Hr, Hu.
Qed.

Lemma deleteDataRange_scoped_witness :
  let d := Db.storeUplink Sample.runtime Sample.two_readings
             (Sample.delivery_of "70b3d57ed0000002" 7 "7") in
  List.length
    (Db.listUplinks
       (Db.after
          (Db.deleteDataRange d "70b3d57ed0000001" "2024" "2025"
             Db.SourceBoth))
       "70b3d57ed0000002" None None None) = 1%nat.
Proof.
  cbv zeta.
  destruct (deleteDataRange_scoped
              (Db.storeUplink Sample.runtime Sample.two_readings
                 (Sample.delivery_of "70b3d57ed0000002" 7 "7"))
              "70b3d57ed0000001" "70b3d57ed0000002" "2024" "2025"
              Db.SourceBoth None None None eq_refl) as (_ & _ & _ & W).
  rewrite W. reflexivity.
Defined.

Lemma between_point (at_str x : string) :
  Db.between at_str at_str x = String.eqb x at_str.
Proof.
  unfold Db.between.
  destruct (String.eqb x at_str) eqn:E.
  - apply String.eqb_eq in E as ->.
    assert (Hrefl : String.leb at_str at_str = true)
      by (unfold String.leb; now rewrite string_compare_refl).
    now rewrite Hrefl.
  - destruct (String.leb at_str x) eqn:E1; [|reflexivity].
    destruct (String.leb x at_str) eqn:E2; [|reflexivity].
    apply String.eqb_neq in E. exfalso. apply E.
    now apply String.leb_antisym.
Qed.

(** X14: deleting a data point is deleting the range that starts and ends
    at its timestamp: same database, same counts. *)
Theorem deleteDataPoint_is_range (d : Db.db) (dev at_str : string)
  (source : Db.DeleteSource) :
  Db.deleteDataPoint d dev at_str source
  = Db.deleteDataRange d dev at_str at_str source.
Proof.
  unfold Db.deleteDataPoint, Db.deleteDataRange, Db.delete_rows,
    Db.delete_where.
  assert (Hr : forall rows,
             filter (fun r => String.eqb (ReadingRow.dev_eui r) dev
                              && String.eqb (ReadingRow.at_ r) at_str) rows
             = filter (fun r => String.eqb (ReadingRow.dev_eui r) dev
                                && Db.between at_str at_str (ReadingRow.at_ r))
                 rows)
    by (intros rows; apply filter_pointwise; intros x _;
        now rewrite between_point).
  assert (Hr' : forall rows,
             filter (fun r => negb (String.eqb (ReadingRow.dev_eui r) dev
                                    && String.eqb (ReadingRow.at_ r) at_str))
               rows
             = filter (fun r => negb (String.eqb (ReadingRow.dev_eui r) dev
                                      && Db.between at_str at_str
                                           (ReadingRow.at_ r))) rows)
    by (intros rows; apply filter_pointwise; intros x _;
        now rewrite between_point).
  assert (Hu : forall rows,
             filter (fun r => String.eqb (UplinkRow.dev_eui r) dev
                              && String.eqb (UplinkRow.at_ r) at_str) rows
             = filter (fun r => String.eqb (UplinkRow.dev_eui r) dev
                                && Db.between at_str at_str (UplinkRow.at_ r))
                 rows)
    by (intros rows; apply filter_pointwise; intros x _;
        now rewrite between_point).
  assert (Hu' : forall rows,
             filter (fun r => negb (String.eqb (UplinkRow.dev_eui r) dev
                                    && String.eqb (UplinkRow.at_ r) at_str))
               rows
             = filter (fun r => negb (String.eqb (UplinkRow.dev_eui r) dev
                                      && Db.between at_str at_str
                                           (UplinkRow.at_ r))) rows)
    by (intros rows; apply filter_pointwise; intros x _;
        now rewrite between_point).
  destruct source; simpl; now rewrite ?Hr, ?Hr', ?Hu, ?Hu'.
Qed.

(** ** Latest rows *)

Lemma hd_sort_by_max {A} (geb : A -> A -> bool) (l : list A) :
  (forall a b, geb a b = true \/ geb b a = true) ->
  (forall a b c, geb a b = true -> geb b c = true -> geb a c = true) ->
  match hd_error (Db.sort_by geb l) with
  | Some x => In x l /\ forall y, In y l -> geb x y = true
  | None => l = []
  end.
Proof.
  intros Htot Htrans.
  pose proof (sort_by_sorted geb Htot Htrans l) as Hs.
  pose proof (sort_by_in geb) as Hin.
  destruct (Db.sort_by geb l) as [|x rest] eqn:E; simpl.
  - destruct l as [|y l]; [reflexivity|].
    specialize (Hin y (y :: l)). rewrite E in Hin.
    exfalso. apply Hin. now left.
  - split.
    + apply (Hin x l). rewrite E. now left.
    + intros y Hy. apply (Hin y l) in Hy. rewrite E in Hy.
      inversion Hs as [|? ? _ Hall]; subst.
      destruct Hy as [<- | Hy].
      * destruct (Htot x x); assumption.
      * rewrite Forall_forall in Hall. now apply Hall.
Qed.

Lemma reading_leb_total (a b : ReadingRow.t) :
  Db.reading_leb a b = true \/ Db.reading_leb b a = true.
Proof. apply String.leb_total. Qed.

Lemma reading_leb_trans (a b c : ReadingRow.t) :
  Db.reading_leb a b = true -> Db.reading_leb b c = true ->
  Db.reading_leb a c = true.
Proof. apply string_leb_trans. Qed.

(** X15: [getLastUplink] returns a stored uplink of the device that no
    other uplink of the device follows in the order of [(at, id)], and
    [getLastReading] returns the timestamp and the meter value of a stored
    reading of the device with the greatest timestamp; each returns nothing
    exactly when the device has no row in its table. *)
Theorem latest_rows_are_maximal (d : Db.db) (dev : string) :
  match Db.getLastUplink d dev with
  | Some row =>
      In row (Db.uplinks d)
      /\ UplinkRow.dev_eui row = dev
      /\ forall r, In r (Db.uplinks d) -> UplinkRow.dev_eui r = dev ->
                   Db.uplink_leb r row = true
  | None => forall r, In r (Db.uplinks d) -> UplinkRow.dev_eui r <> dev
  end
  /\ match Db.getLastReading d dev with
     | Some l =>
         exists row,
           In row (Db.readings d)
           /\ ReadingRow.dev_eui row = dev
           /\ Db.last_at l = ReadingRow.at_ row
           /\ Db.last_meter_value l = ReadingRow.meter_value row
           /\ forall r, In r (Db.readings d) -> ReadingRow.dev_eui r = dev ->
                        String.leb (ReadingRow.at_ r) (Db.last_at l) = true
     | None => forall r, In r (Db.readings d) -> ReadingRow.dev_eui r <> dev
     end.
Proof.
  split.
  - unfold Db.getLastUplink, Db.stmtLastUplink.
    pose proof (hd_sort_by_max Db.uplink_geb
                  (filter (fun r => String.eqb (UplinkRow.dev_eui r) dev)
                     (Db.uplinks d))
                  (fun a b => uplink_leb_total b a)
                  (fun a b c Hab Hbc => uplink_leb_trans c b a Hbc Hab))
      as Hmax.
    destruct (hd_error _) as [row|].
    + destruct Hmax as [Hin Hall]. apply filter_In in Hin as [Hin Hd].
      apply String.eqb_eq in Hd. repeat split; auto.
      intros r Hr Hrd. apply (Hall r). apply filter_In. split; [exact Hr|].
      now apply String.eqb_eq.
    + intros r Hr Hrd.
      assert (Hf : In r (filter
                           (fun r => String.eqb (UplinkRow.dev_eui r) dev)
                           (Db.uplinks d)))
        by (apply filter_In; split; [exact Hr | now apply String.eqb_eq]).
      now rewrite Hmax in Hf.
  - unfold Db.getLastReading, Db.stmtLastReading.
    pose proof (hd_sort_by_max Db.reading_geb
                  (filter (fun r => String.eqb (ReadingRow.dev_eui r) dev)
                     (Db.readings d))
                  (fun a b => reading_leb_total b a)
                  (fun a b c Hab Hbc => reading_leb_trans c b a Hbc Hab))
      as Hmax.
    destruct (hd_error _) as [row|].
    + destruct Hmax as [Hin Hall]. apply filter_In in Hin as [Hin Hd].
      apply String.eqb_eq in Hd. exists row. simpl. repeat split; auto.
      intros r Hr Hrd. apply (Hall r). apply filter_In. split; [exact Hr|].
      now apply String.eqb_eq.
    + intros r Hr Hrd.
      assert (Hf : In r (filter
                           (fun r => String.eqb (ReadingRow.dev_eui r) dev)
                           (Db.readings d)))
        by (apply filter_In; split; [exact Hr | now apply String.eqb_eq]).
      now rewrite Hmax in Hf.
Qed.

Example latest_rows_sample :
  option_map Db.last_at (Db.getLastReading Sample.two_readings
                           "70b3d57ed0000001")
  = Some "2024-01-02T01:00:00.000Z"
  /\ Db.getLastReading Sample.two_readings "70b3d57ed0000002" = None.
Proof. vm_compute. split; reflexivity. Qed.

(** ** Strict orderings *)

Lemma sorted_strict {A} (key : A -> string) (l : list A) :
  StronglySorted (fun a b => String.leb (key a) (key b) = true) l ->
  NoDup (map key l) ->
  StronglySorted (fun a b => String.ltb (key a) (key b) = true) l.
Proof.
  induction 1 as [|x l Hs IH Hall]; simpl; intros Hn; [constructor|].
  inversion Hn as [|? ? Hnot Hn']; subst.
  constructor; [auto|].
  rewrite Forall_forall in *. intros y Hy.
  specialize (Hall y Hy). rewrite string_leb_ltb_eqb in Hall.
  apply orb_true_iff in Hall as [Hlt | Heq]; [exact Hlt|].
  apply String.eqb_eq in Heq. exfalso. apply Hnot. rewrite Heq.
  now apply in_map.
Qed.

Lemma add_to_group_keys (dev : string) (name : option string)
  (groups : list (string * option string)) :
  NoDup (map fst groups) ->
  NoDup (map fst (Db.add_to_group dev name groups))
  /\ forall x, In x (map fst (Db.add_to_group dev name groups))
               <-> x = dev \/ In x (map fst groups).
Proof.
  induction groups as [|[dev0 name0] groups IH]; simpl; intros Hn.
  - split; [repeat constructor; auto | intuition congruence].
  - inversion Hn as [|? ? Hnot Hn']; subst.
    destruct (String.eqb dev dev0) eqn:E; simpl.
    + apply String.eqb_eq in E as ->.
      split; [now constructor | intuition congruence].
    + destruct (IH Hn') as [IH1 IH2]. split.
      * constructor; [|exact IH1]. rewrite IH2.
        apply String.eqb_neq in E. intuition congruence.
      * intros x. rewrite IH2. intuition congruence.
Qed.

Lemma group_devices_keys (rows groups : list (string * option string)) :
  NoDup (map fst groups) ->
  NoDup (map fst
           (fold_left
              (fun g row => Db.add_to_group (fst row) (snd row) g) rows
              groups))
  /\ forall x,
       In x (map fst
               (fold_left
                  (fun g row => Db.add_to_group (fst row) (snd row) g) rows
                  groups))
       <-> In x (map fst rows) \/ In x (map fst groups).
Proof.
  revert groups. induction rows as [|row rows IH]; simpl; intros groups Hn.
  - split; [exact Hn | tauto].
  - destruct (add_to_group_keys (fst row) (snd row) groups Hn) as [Hn' Hin].
    destruct (IH _ Hn') as [IH1 IH2]. split; [exact IH1|].
    intros x. rewrite IH2, Hin. intuition congruence.
Qed.

Lemma device_leb_total (a b : string * option string) :
  Db.device_leb a b = true \/ Db.device_leb b a = true.
Proof. apply String.leb_total. Qed.

Lemma device_leb_trans (a b c : string * option string) :
  Db.device_leb a b = true -> Db.device_leb b c = true ->
  Db.device_leb a c = true.
Proof. apply string_leb_trans. Qed.

Lemma map_sort_by_in {A B} (leb : A -> A -> bool) (f : A -> B) (x : B)
  (l : list A) :
  In x (map f (Db.sort_by leb l)) <-> In x (map f l).
Proof.
  rewrite !in_map_iff. split; intros (e & E & He); exists e;
    (split; [exact E|]); now apply (sort_by_in leb e l).
Qed.

Lemma listDevices_members (d : Db.db) (dev : string) :
  In dev (map fst (Db.listDevices d))
  <-> (exists r, In r (Db.readings d) /\ ReadingRow.dev_eui r = dev)
      \/ (exists r, In r (Db.uplinks d) /\ UplinkRow.dev_eui r = dev).
Proof.
  unfold Db.listDevices, Db.group_devices.
  destruct (group_devices_keys (Db.device_names d) [] (NoDup_nil _))
    as [_ Hin].
  rewrite map_sort_by_in, Hin.
  unfold Db.device_names. rewrite map_app, !map_map. simpl.
  rewrite in_app_iff, !in_map_iff.
  split.
  - intros [[(r & E & Hr) | (r & E & Hr)] | []]; eauto.
  - intros [(r & Hr & E) | (r & Hr & E)]; left; eauto.
Qed.

(** X16: [listDevices] lists exactly the devices that have a row in the
    readings or in the uplinks table, each once, in strictly ascending
    order of [dev_eui]. *)
Theorem listDevices_complete (d : Db.db) :
  (forall dev,
      In dev (map fst (Db.listDevices d))
      <-> (exists r, In r (Db.readings d) /\ ReadingRow.dev_eui r = dev)
          \/ (exists r, In r (Db.uplinks d) /\ UplinkRow.dev_eui r = dev))
  /\ StronglySorted
       (fun a b => String.ltb (fst a) (fst b) = true) (Db.listDevices d).
Proof.
  split; [intros dev; apply listDevices_members|].
  unfold Db.listDevices, Db.group_devices.
  destruct (group_devices_keys (Db.device_names d) [] (NoDup_nil _))
    as [Hn _].
  apply sorted_strict.
  - apply sort_by_sorted; [exact device_leb_total | exact device_leb_trans].
  - apply (Permutation_NoDup
             (Permutation_sym
                (Permutation_map fst (sort_by_perm Db.device_leb _)))).
    exact Hn.
Qed.

Example listDevices_sample :
  Db.listDevices
    (Db.storeUplink Sample.runtime
       (Db.storeUplink Sample.runtime Sample.two_readings
          (Sample.delivery_of "70b3d57ed0000002" 7 "7"))
       (Sample.delivery 100 "100"))
  = [("70b3d57ed0000001", Some "meter-1");
     ("70b3d57ed0000002", Some "meter-2")].
Proof. reflexivity. Qed.

Lemma unique_at (dev : string) (rows : list ReadingRow.t) :
  (forall at_str, (count (Db.reading_conflict dev at_str) rows <= 1)%nat) ->
  NoDup (map ReadingRow.at_
           (filter (fun r => String.eqb (ReadingRow.dev_eui r) dev) rows)).
Proof.
  induction rows as [|r rows IH]; simpl; intros Hu; [constructor|].
  assert (Hrest : forall at_str,
             (count (Db.reading_conflict dev at_str) rows <= 1)%nat).
  { intros at_str. specialize (Hu at_str). unfold count in *. simpl in Hu.
    destruct (Db.reading_conflict dev at_str r); simpl in Hu; lia. }
  destruct (String.eqb (ReadingRow.dev_eui r) dev) eqn:Ed; [|auto].
  simpl. constructor; [|auto].
  intros Hin. apply in_map_iff in Hin as (r2 & Eat & Hr2).
  apply filter_In in Hr2 as [Hr2 Ed2].
  specialize (Hu (ReadingRow.at_ r)). unfold count in Hu. simpl in Hu.
  assert (Hc : Db.reading_conflict dev (ReadingRow.at_ r) r = true)
    by (unfold Db.reading_conflict; now rewrite Ed, String.eqb_refl).
  rewrite Hc in Hu. simpl in Hu.
  assert (Hex : existsb (Db.reading_conflict dev (ReadingRow.at_ r)) rows
                = true).
  { apply existsb_exists. exists r2. split; [exact Hr2|].
    unfold Db.reading_conflict. rewrite Ed2, Eat. apply String.eqb_refl. }
  apply existsb_count in Hex. unfold count in Hex. lia.
Qed.

Lemma NoDup_map_filter {A B} (f : A -> B) (p : A -> bool) :
  forall l : list A, NoDup (map f l) -> NoDup (map f (filter p l)).
Proof.
  intros l. induction l as [|x l IH]; simpl; intros Hn; [constructor|].
  inversion Hn as [|? ? Hnot Hn']; subst.
  destruct (p x); simpl; [|auto].
  constructor; [|auto].
  intros Hin. apply Hnot. apply in_map_iff in Hin as (y & E & Hy).
  apply filter_In in Hy as [Hy _]. rewrite <- E. now apply in_map.
Qed.

Lemma sorted_map {A B} (R : A -> A -> Prop) (R' : B -> B -> Prop)
  (g : A -> B) (l : list A) :
  (forall a b, R a b -> R' (g a) (g b)) ->
  StronglySorted R l -> StronglySorted R' (map g l).
Proof.
  intros Hg. induction 1 as [|x l Hs IH Hall]; simpl; constructor; auto.
  rewrite Forall_forall in *. intros y Hy.
  apply in_map_iff in Hy as (z & <- & Hz). auto.
Qed.

(** X17: in a database that satisfies the unique index on readings,
    [listReadings] returns the device's readings whose timestamp lies in
    the range, in strictly ascending order of timestamps, and nothing
    else: every row returned carries the timestamp and meter value of a
    stored reading of the device, and every stored reading of the device
    in the range is returned. *)
Theorem listReadings_ascending (d : Db.db) (dev : string)
  (from to : option string) :
  unique_keys d ->
  StronglySorted reading_before (Db.listReadings d dev from to)
  /\ (forall r',
        In r' (Db.listReadings d dev from to) ->
        ReadingRow.dev_eui r' = dev
        /\ Db.in_range from to (ReadingRow.at_ r') = true
        /\ exists r,
             In r (Db.readings d)
             /\ ReadingRow.dev_eui r = dev
             /\ ReadingRow.at_ r = ReadingRow.at_ r'
             /\ ReadingRow.meter_value r = ReadingRow.meter_value r')
  /\ (forall r,
        In r (Db.readings d) -> ReadingRow.dev_eui r = dev ->
        Db.in_range from to (ReadingRow.at_ r) = true ->
        exists r',
          In r' (Db.listReadings d dev from to)
          /\ ReadingRow.at_ r' = ReadingRow.at_ r
          /\ ReadingRow.meter_value r' = ReadingRow.meter_value r).
Proof.
  intros [_ Hu]. unfold Db.listReadings, Db.stmtAllReadingsForDevice.
  set (mine := filter (fun r => String.eqb (ReadingRow.dev_eui r) dev)
                 (Db.readings d)).
  set (kept := filter (fun r => Db.in_range from to (ReadingRow.at_ r))
                 (Db.sort_by Db.reading_leb mine)).
  assert (Hin : forall r, In r kept
                          <-> In r (Db.readings d)
                              /\ ReadingRow.dev_eui r = dev
                              /\ Db.in_range from to (ReadingRow.at_ r) = true).
  { intros r. unfold kept, mine.
    rewrite filter_In, sort_by_in, filter_In, String.eqb_eq. tauto. }
  split; [|split].
  - apply (sorted_map
             (fun a b => String.ltb (ReadingRow.at_ a) (ReadingRow.at_ b)
                         = true)); [auto|].
    apply (sorted_strict ReadingRow.at_).
    + apply filter_sorted.
      apply (sort_by_sorted Db.reading_leb reading_leb_total
               reading_leb_trans).
    + apply NoDup_map_filter.
      apply (Permutation_NoDup
               (Permutation_sym
                  (Permutation_map ReadingRow.at_
                     (sort_by_perm Db.reading_leb mine)))).
      apply unique_at. exact (Hu dev).
  - intros r' Hr'. apply in_map_iff in Hr' as (r & <- & Hr).
    apply Hin in Hr as (Hr & Hd & Hrange). simpl. eauto 8.
  - intros r Hr Hd Hrange.
    eexists. split; [apply in_map, Hin; eauto|]. split; reflexivity.
Qed.

Lemma listReadings_ascending_witness :
  StronglySorted reading_before
    (Db.listReadings Sample.two_readings "70b3d57ed0000001" None None)
  /\ map ReadingRow.at_
       (Db.listReadings Sample.two_readings "70b3d57ed0000001" None None)
     = ["2024-01-01T23:00:00.000Z"; "2024-01-02T01:00:00.000Z"].
Proof.
  split; [|reflexivity].
  apply (listReadings_ascending Sample.two_readings "70b3d57ed0000001"
           None None).
  split; intros dev x; unfold count; simpl.
  - lia.
  - destruct (Db.reading_conflict dev x _) eqn:E1;
      destruct (Db.reading_conflict dev x
                  (Sample.reading "2024-01-02T01:00:00.000Z" 105)) eqn:E2;
      simpl; try lia.
    apply reading_conflict_iff in E1 as [_ <-].
    apply reading_conflict_iff in E2 as [_ E2]. discriminate.
Defined.

Lemma lookup_some_in {A} (k : string) (v : A) (m : list (string * A)) :
  lookup k m = Some v -> In (k, v) m.
Proof.
  induction m as [|[k0 v0] m IH]; simpl; [discriminate|].
  destruct (String.eqb k k0) eqn:E.
  - apply String.eqb_eq in E as ->. intros [= ->]. now left.
  - intros Hl. right. auto.
Qed.

Lemma entry_leb_total (a b : string * Db.bucket) :
  Db.entry_leb a b = true \/ Db.entry_leb b a = true.
Proof. apply String.leb_total. Qed.

Lemma entry_leb_trans (a b c : string * Db.bucket) :
  Db.entry_leb a b = true -> Db.entry_leb b c = true ->
  Db.entry_leb a c = true.
Proof. apply string_leb_trans. Qed.

(** X18: the series returned by [dailyConsumption] is in strictly
    ascending order of dates, so no date occurs twice, and it has a point
    for a local date exactly when the device has a reading in the window
    that falls on that date. *)
Theorem dailyConsumption_dates (H : host) (d : Db.db) (devEui : string)
  (days : number) (tz : string) (endIso : option string)
  (out : list Db.DailyPoint) :
  Db.dailyConsumption H d devEui days tz endIso = Some out ->
  StronglySorted (fun a b => String.ltb (Db.date a) (Db.date b) = true) out
  /\ forall day,
       In day (map Db.date out)
       <-> day_readings H d devEui days tz endIso day <> [].
Proof.
  unfold Db.dailyConsumption, day_readings. intros Hout.
  set (all := Db.stmtAllReadingsForDevice d devEui) in *.
  set (w := Db.window H days endIso) in *.
  destruct all as [|r0 all0] eqn:Eall.
  { injection Hout as <-. split; [constructor|].
    intros day. simpl. split; [contradiction | congruence]. }
  rewrite <- Eall in *. clear Eall r0 all0.
  destruct (Db.fill H w tz all []) as [byDate|] eqn:Ef; [|discriminate].
  injection Hout as <-.
  apply (fill_buckets H w tz all [] [] byDate) in Ef
    as [Hbuckets Hn]; [|reflexivity|constructor].
  simpl in Hbuckets.
  split.
  - apply (sorted_map
             (fun a b : string * Db.bucket => String.ltb (fst a) (fst b)
                                              = true)).
    { intros [a x] [b y]. auto. }
    apply (sorted_strict fst).
    + apply (sort_by_sorted Db.entry_leb entry_leb_total entry_leb_trans).
    + apply (Permutation_NoDup
               (Permutation_sym
                  (Permutation_map fst (sort_by_perm Db.entry_leb byDate)))).
      exact Hn.
  - intros day. rewrite map_map.
    rewrite (map_ext (fun e => Db.date (Db.point_of e)) fst)
      by (intros [k b]; reflexivity).
    rewrite map_sort_by_in. specialize (Hbuckets day). split.
    + intros Hin. apply in_map_iff in Hin as ([k b] & E & Hin).
      simpl in E. subst k.
      apply (lookup_in_nodup day b byDate Hn) in Hin.
      rewrite Hbuckets in Hin.
      destruct (filter _ all); [discriminate | congruence].
    + intros Hne.
      destruct (filter _ all) as [|f rs]; [congruence|].
      simpl in Hbuckets. apply lookup_some_in in Hbuckets.
      now apply (in_map fst) in Hbuckets.
Qed.

Lemma dailyConsumption_dates_witness :
  Db.dailyConsumption Sample.runtime Sample.two_readings "70b3d57ed0000001"
    (of_Z 30) "UTC" (Some "2024-01-02T12:00:00.000Z")
  = Some [Db.Point "2024-01-01" (Some pos_zero) (Some (of_Z 100));
          Db.Point "2024-01-02" (Some pos_zero) (Some (of_Z 105))]
  /\ StronglySorted (fun a b => String.ltb (Db.date a) (Db.date b) = true)
       [Db.Point "2024-01-01" (Some pos_zero) (Some (of_Z 100));
        Db.Point "2024-01-02" (Some pos_zero) (Some (of_Z 105))].
Proof.
  split; [reflexivity|].
  apply (dailyConsumption_dates Sample.runtime Sample.two_readings
           "70b3d57ed0000001" (of_Z 30) "UTC"
           (Some "2024-01-02T12:00:00.000Z")).
  reflexivity.
Defined.

(** ** Deleting a device *)

Lemma sort_by_nil {A} (leb : A -> A -> bool) (l : list A) :
  l = [] -> Db.sort_by leb l = [].
Proof. now intros ->. Qed.

(** X19: after [deleteDevice] the device has no reading, no uplink, no
    latest row and no entry in the device list, the two counts reported are
    the numbers of rows removed, and the listings of every other device are
    unchanged. *)
Theorem deleteDevice_removes (d : Db.db) (dev dev' : string)
  (f t : option string) (limit : option Z) :
  let r := Db.deleteDevice d dev in
  Db.listReadings (Db.after r) dev f t = []
  /\ Db.listUplinks (Db.after r) dev f t limit = []
  /\ Db.getLastReading (Db.after r) dev = None
  /\ Db.getLastUplink (Db.after r) dev = None
  /\ ~ In dev (map fst (Db.listDevices (Db.after r)))
  /\ (Db.readingsDeleted r + List.length (Db.readings (Db.after r))
      = List.length (Db.readings d))%nat
  /\ (Db.uplinksDeleted r + List.length (Db.uplinks (Db.after r))
      = List.length (Db.uplinks d))%nat
  /\ (if String.eqb dev' dev then True
      else Db.listReadings (Db.after r) dev' f t = Db.listReadings d dev' f t
           /\ Db.listUplinks (Db.after r) dev' f t limit
              = Db.listUplinks d dev' f t limit).
Proof.
  cbv zeta. unfold Db.deleteDevice, Db.delete_where.
  cbn [Db.after Db.readingsDeleted Db.uplinksDeleted Db.readings Db.uplinks].
  assert (Hr : filter (fun r => String.eqb (ReadingRow.dev_eui r) dev)
                 (filter
                    (fun r => negb (String.eqb (ReadingRow.dev_eui r) dev))
                    (Db.readings d)) = [])
    by (apply filter_after_delete; auto).
  assert (Hu : filter (fun r => String.eqb (UplinkRow.dev_eui r) dev)
                 (filter
                    (fun r => negb (String.eqb (UplinkRow.dev_eui r) dev))
                    (Db.uplinks d)) = [])
    by (apply filter_after_delete; auto).
  repeat split.
  - unfold Db.listReadings, Db.stmtAllReadingsForDevice. simpl.
    now rewrite Hr.
  - unfold Db.listUplinks, Db.filtered_uplinks, Db.stmtAllUplinksForDevice.
    simpl. rewrite Hu. simpl. apply skipn_nil.
  - unfold Db.getLastReading, Db.stmtLastReading. simpl. now rewrite Hr.
  - unfold Db.getLastUplink, Db.stmtLastUplink. simpl. now rewrite Hu.
  - intros Hin. apply listDevices_members in Hin.
    destruct Hin as [(r & Hin & E) | (r & Hin & E)]; simpl in Hin;
      apply filter_In in Hin as [_ Hin]; apply negb_true_iff in Hin;
      apply String.eqb_neq in Hin; contradiction.
  - apply filter_split_length.
  - apply filter_split_length.
  - destruct (String.eqb dev' dev) eqn:Ene; [exact I|].
    unfold Db.listReadings, Db.listUplinks, Db.filtered_uplinks,
      Db.stmtAllReadingsForDevice, Db.stmtAllUplinksForDevice. simpl.
    rewrite !filter_keeps_others; [split; reflexivity| |];
      intros x Hx; apply String.eqb_eq in Hx; rewrite Hx; exact Ene.
Qed.





(** ** Field resolver *)

Lemma getDeep_undefined (path : list segment) :
  getDeep VUndefined path = VUndefined.
Proof. destruct path as [|[k|i] path]; reflexivity. Qed.

(** X21: following a path and then a second one from where the first one
    ended is following their concatenation; if the first one fails the
    whole lookup is [undefined]. *)
Theorem getDeep_app (obj : value) (p q : list segment) :
  getDeep obj (p ++ q) = getDeep (getDeep obj p) q.
Proof.
  revert obj. induction p as [|seg p IH]; intros obj; [reflexivity|].
  destruct seg as [k|i]; simpl.
  - destruct (asRecord obj) as [rec|];
      [|now rewrite getDeep_undefined].
    destruct (lookup k rec) as [v|]; [apply IH|].
    now rewrite getDeep_undefined.
  - destruct obj; try (now rewrite getDeep_undefined).
    destruct ((i <? 0) || (Z.of_nat (List.length items) <=? i));
      [now rewrite getDeep_undefined | apply IH].
Qed.

(** X22: [firstDefined] never returns [null]: its result is [undefined] or
    a value that is neither [null] nor [undefined]; and candidate paths
    are tried in order, later ones only when all earlier ones resolve to
    nothing. *)
Theorem firstDefined_priority (obj : value)
  (first_paths later_paths : list (list segment)) :
  (if nullish (firstDefined obj first_paths)
   then firstDefined obj first_paths = VUndefined
        /\ firstDefined obj (first_paths ++ later_paths)
           = firstDefined obj later_paths
   else firstDefined obj (first_paths ++ later_paths)
        = firstDefined obj first_paths).
Proof.
  induction first_paths as [|p ps IH]; simpl; [split; reflexivity|].
  destruct (nullish (getDeep obj p)) eqn:E; [exact IH|].
  now rewrite E.
Qed.

Example firstDefined_sample :
  firstDefined
    (VObj [("deviceInfo", VObj [("devEui", VNull)]);
           ("devEui", VStr "0102030405060708")])
    [keys ["deviceInfo"; "devEui"]; keys ["devEui"]]
  = VStr "0102030405060708".
Proof. reflexivity. Qed.

(** ** What the normaliser hands to the store *)

Lemma bestSignal_step_finite (best : signal) (item : value) :
  match sig_rssi best with Some n => isFinite n = true | None => True end ->
  match sig_snr best with Some n => isFinite n = true | None => True end ->
  match sig_rssi (bestSignal_step best item) with
  | Some n => isFinite n = true
  | None => True
  end
  /\ match sig_snr (bestSignal_step best item) with
     | Some n => isFinite n = true
     | None => True
     end.
Proof.
  intros Hr Hs. unfold bestSignal_step.
  destruct (rssi_of item) as [r|] eqn:Er; [|now split].
  assert (Hnew : match sig_rssi (Signal (Some r) (snr_of item)) with
                 | Some n => isFinite n = true
                 | None => True
                 end
                 /\ match sig_snr (Signal (Some r) (snr_of item)) with
                    | Some n => isFinite n = true
                    | None => True
                    end).
  { simpl. split; [eapply numOrNull_finite; exact Er|].
    destruct (snr_of item) as [s|] eqn:Es; [|exact I].
    eapply numOrNull_finite; exact Es. }
  destruct (sig_rssi best) as [b|] eqn:Eb; [|exact Hnew].
  destruct (gt r b); [exact Hnew|].
  rewrite Eb. now split.
Qed.

Lemma bestSignal_finite (items : list value) (best : signal) :
  match sig_rssi best with Some n => isFinite n = true | None => True end ->
  match sig_snr best with Some n => isFinite n = true | None => True end ->
  match sig_rssi (fold_left bestSignal_step items best) with
  | Some n => isFinite n = true
  | None => True
  end
  /\ match sig_snr (fold_left bestSignal_step items best) with
     | Some n => isFinite n = true
     | None => True
     end.
Proof.
  revert best. induction items as [|item items IH]; intros best Hr Hs;
    [now split|].
  simpl. destruct (bestSignal_step_finite best item Hr Hs). now apply IH.
Qed.

Lemma finite_number_id (o : option number) :
  match o with Some n => isFinite n = true | None => True end ->
  Db.finite_number o = o.
Proof. destruct o as [n|]; simpl; [now intros ->|reflexivity]. Qed.

(** X23: the RSSI, the SNR and the meter value of a normalised uplink are
    finite numbers when present, so the finiteness guards of [storeUplink]
    keep them as they are. *)
Theorem normalised_measurements_finite (H : host) (up : value) :
  let p := parseLoRaPayload H up in
  match rssi p with Some n => isFinite n = true | None => True end
  /\ match snr p with Some n => isFinite n = true | None => True end
  /\ match p_meterValue p with Some n => isFinite n = true | None => True end
  /\ Db.finite_number (snr p) = snr p
  /\ Db.finite_number (p_meterValue p) = p_meterValue p.
Proof.
  cbv zeta.
  assert (Hopt : forall v,
             match numOrNull v with
             | Some n => isFinite n = true
             | None => True
             end).
  { intros v. destruct (numOrNull v) eqn:E; [|exact I].
    eapply numOrNull_finite; exact E. }
  destruct (bestSignal_finite (rxCandidates up) (Signal None None) I I)
    as [Hr Hs].
  assert (Hrssi : match rssi (parseLoRaPayload H up) with
                  | Some n => isFinite n = true
                  | None => True
                  end).
  { change (rssi (parseLoRaPayload H up))
      with (coalesce (sig_rssi (bestSignal (rxCandidates up))) (top_rssi up)).
    unfold bestSignal, coalesce.
    destruct (sig_rssi _); [exact Hr | apply Hopt]. }
  assert (Hsnr : match snr (parseLoRaPayload H up) with
                 | Some n => isFinite n = true
                 | None => True
                 end).
  { change (snr (parseLoRaPayload H up))
      with (coalesce (sig_snr (bestSignal (rxCandidates up))) (top_snr up)).
    unfold bestSignal, coalesce.
    destruct (sig_snr _); [exact Hs | apply Hopt]. }
  assert (Hm : match p_meterValue (parseLoRaPayload H up) with
               | Some n => isFinite n = true
               | None => True
               end).
  { destruct (p_meterValue (parseLoRaPayload H up)) eqn:E; [|exact I].
    eapply parsed_meter_finite; exact E. }
  repeat split; auto using finite_number_id.
Qed.

(** ** Device identity, again *)

Lemma lower_hex_plain (c : ascii) :
  is_lower_hex c = true ->
  is_space c = false /\ lower_char c = c /\ is_hex c = true.
Proof.
  destruct c as [[] [] [] [] [] [] [] []]; vm_compute; intros E;
    try discriminate; repeat split.
Qed.

Lemma drop_space_plain (cs : list ascii) :
  forallb (fun c => negb (is_space c)) cs = true -> drop_space cs = cs.
Proof.
  destruct cs as [|c cs]; simpl; [reflexivity|].
  intros E. apply andb_true_iff in E as [E _].
  apply negb_true_iff in E. now rewrite E.
Qed.

Lemma trim_chars_plain (cs : list ascii) :
  forallb (fun c => negb (is_space c)) cs = true -> trim_chars cs = cs.
Proof.
  intros E. unfold trim_chars. rewrite (drop_space_plain cs E).
  rewrite drop_space_plain; [apply rev_involutive|].
  rewrite forallb_forall in *. intros c Hc. apply E. now apply in_rev.
Qed.

(** X24: a device identifier of sixteen lower-case hexadecimal digits is a
    fixed point of [normalizeDevEui]: it is returned as the hex form,
    unchanged, with no base64 form. *)
Theorem normalizeDevEui_hex_fixed (h : string) :
  lower_hex16 h = true ->
  normalizeDevEui (VStr h) = DevEui (Some h) None.
Proof.
  unfold lower_hex16. intros E. apply andb_true_iff in E as [Hlen Hall].
  assert (Hplain : forall c, In c (chars h) ->
                             is_space c = false /\ lower_char c = c
                             /\ is_hex c = true).
  { intros c Hc. apply lower_hex_plain.
    rewrite forallb_forall in Hall. now apply Hall. }
  assert (Htrim : trim h = h).
  { unfold trim. rewrite trim_chars_plain; [apply of_chars_chars|].
    apply forallb_forall. intros c Hc.
    destruct (Hplain c Hc) as [-> _]. reflexivity. }
  assert (Hlow : toLowerCase h = h).
  { unfold toLowerCase.
    rewrite (map_ext_in lower_char (fun c => c)), map_id;
      [apply of_chars_chars|].
    intros c Hc. now destruct (Hplain c Hc) as (_ & -> & _). }
  assert (Hhex : HEX16 h = true).
  { unfold HEX16. rewrite Hlen. simpl. apply forallb_forall.
    intros c Hc. now destruct (Hplain c Hc) as (_ & _ & ->). }
  assert (Hne : is_empty h = false).
  { rewrite <- (of_chars_chars h). apply Nat.eqb_eq in Hlen.
    destruct (chars h); [discriminate | reflexivity]. }
  unfold normalizeDevEui. now rewrite Htrim, Hne, Hhex, Hlow.
Qed.

Lemma normalizeDevEui_hex_fixed_witness :
  lower_hex16 "70b3d57ed0000001" = true
  /\ normalizeDevEui (VStr "70b3d57ed0000001")
     = DevEui (Some "70b3d57ed0000001") None.
Proof.
  split; [reflexivity|].
  apply (normalizeDevEui_hex_fixed "70b3d57ed0000001"). reflexivity.
Defined.

(** ** Keyword search on decoded documents *)

Lemma is_nullish_value (v : value) :
  Search.is_nullish value view_value v = nullish v.
Proof. destruct v; reflexivity. Qed.

Lemma scan_entries_first (wanted : list string)
  (entries : list (string * value)) (depth : nat)
  (stk : list (Search.frame value)) (k : string) (v : value) :
  find (fun kv => Search.is_wanted wanted (fst kv) && negb (nullish (snd kv)))
    entries = Some (k, v) ->
  Search.scan_entries value view_value wanted entries depth stk = inl v.
Proof.
  revert stk. induction entries as [|[k0 v0] entries IH]; simpl; intros stk;
    [discriminate|].
  rewrite is_nullish_value.
  destruct (Search.is_wanted wanted k0 && negb (nullish v0)).
  - now intros [= _ ->].
  - apply IH.
Qed.

(** X25: a wanted key of the root object wins over every nested one: when
    the root object has entries with a wanted key and a non-null value, the
    search returns the value of the first of them, whatever the depth
    bound. *)
Theorem findFirstKeyDeep_root_first (entries : list (string * value))
  (wanted : list string) (maxDepth : nat) (k : string) (v : value) :
  find (fun kv => Search.is_wanted wanted (fst kv) && negb (nullish (snd kv)))
    entries = Some (k, v) ->
  findFirstKeyDeep (VObj entries) wanted maxDepth = v.
Proof.
  intros Hf. unfold findFirstKeyDeep. simpl.
  unfold Search.step, Search.init, Search.skips, Search.has_seen. simpl.
  now rewrite (scan_entries_first wanted entries 0 [] k v Hf).
Qed.

Lemma findFirstKeyDeep_root_first_witness :
  findFirstKeyDeep
    (VObj [("nested", VObj [("meter", VStr "1")]);
           ("meter", VNull);
           ("reading", VStr "2")])
    ["meter"; "reading"] 4
  = VStr "2".
Proof.
  apply (findFirstKeyDeep_root_first _ _ 4 "reading"). reflexivity.
Defined.

Lemma tree_run_returns_value (wanted : list string) (maxDepth : nat)
  (root : value) (fuel : nat) (st : Search.state value) (v : value) :
  Search.reachable value view_value same_value wanted maxDepth root st ->
  Search.run value view_value same_value wanted maxDepth fuel st
  = Some (Some v) ->
  nullish v = false
  /\ exists parent d k entries,
       (d <= maxDepth)%nat
       /\ Search.at_depth value view_value root parent d
       /\ parent = VObj entries
       /\ In (k, v) entries
       /\ Search.is_wanted wanted k = true.
Proof.
  revert st. induction fuel as [|fuel IH]; simpl; intros st Hr;
    [discriminate|].
  destruct (Search.step value view_value same_value wanted maxDepth st)
    as [st'|r] eqn:Es.
  - apply IH. eapply Search.reach_step; eauto.
  - intros [= ->]. unfold Search.step in Es.
    destruct (Search.stack st) as [|f rest] eqn:Est; [discriminate|].
    destruct (Search.skips _ _ _ _ _ f) eqn:Esk; [discriminate|].
    destruct (view_value (Search.fv f)) as [| |items|entries] eqn:Ev;
      try discriminate.
    destruct (Search.scan_entries _ _ _ _ _ _) as [val|] eqn:Esc;
      [|discriminate].
    injection Es as ->.
    apply scan_entries_found in Esc as (k & Hin & Hw & Hnull).
    rewrite is_nullish_value in Hnull. split; [exact Hnull|].
    exists (Search.fv f), (Search.fdepth f), k, entries.
    repeat split; auto.
    + unfold Search.skips in Esk. apply orb_false_iff in Esk as [_ Esk].
      now apply Nat.ltb_ge in Esk.
    + eapply reachable_depths; [exact Hr|]. rewrite Est. now left.
    + destruct (Search.fv f); try discriminate. now injection Ev as ->.
Qed.

(** X26: on a decoded document the search returns [undefined] or a value
    that is not [null], and such a value is the value of a wanted key in an
    object that lies at most [maxDepth] edges below the root. *)
Theorem findFirstKeyDeep_found (root : value) (wanted : list string)
  (maxDepth : nat) :
  findFirstKeyDeep root wanted maxDepth = VUndefined
  \/ (nullish (findFirstKeyDeep root wanted maxDepth) = false
      /\ exists parent d k entries,
           (d <= maxDepth)%nat
           /\ Search.at_depth value view_value root parent d
           /\ parent = VObj entries
           /\ In (k, findFirstKeyDeep root wanted maxDepth) entries
           /\ Search.is_wanted wanted k = true).
Proof.
  unfold findFirstKeyDeep.
  destruct (Search.run _ _ _ _ _ _ _) as [[v|]|] eqn:E; [|now left..].
  right. eapply tree_run_returns_value; [|exact E]. constructor.
Qed.

(** ** CSV fields *)

Lemma double_quotes_injective (a b : list ascii) :
  Server.double_quotes a = Server.double_quotes b -> a = b.
Proof.
  revert b. induction a as [|x a IH]; intros [|y b]; simpl.
  - reflexivity.
  - destruct (Ascii.eqb y Server.quote); discriminate.
  - destruct (Ascii.eqb x Server.quote); discriminate.
  - destruct (Ascii.eqb x Server.quote) eqn:Ex,
             (Ascii.eqb y Server.quote) eqn:Ey.
    + apply Ascii.eqb_eq in Ex, Ey. subst.
      intros [= E]. f_equal. now apply IH.
    + apply Ascii.eqb_eq in Ex. apply Ascii.eqb_neq in Ey. subst.
      intros [= E _]. congruence.
    + apply Ascii.eqb_neq in Ex. apply Ascii.eqb_eq in Ey. subst.
      intros [= E _]. congruence.
    + intros [= -> E]. f_equal. now apply IH.
Qed.

Lemma quoted_needs_quoting (s : string) (body : list ascii) :
  chars s = Server.quote :: body -> Server.needs_quoting s = true.
Proof.
  unfold Server.needs_quoting. intros ->. reflexivity.
Qed.

(** X27: [csvEscape] never writes two different texts as the same field:
    on texts it is injective. *)
Theorem csvEscape_text_injective (s1 s2 : string) :
  Server.csvEscape_text s1 = Server.csvEscape_text s2 -> s1 = s2.
Proof.
  unfold Server.csvEscape_text.
  destruct (Server.needs_quoting s1) eqn:E1,
           (Server.needs_quoting s2) eqn:E2; intros E.
  - apply (f_equal chars) in E. rewrite !chars_of_chars in E.
    injection E as E. apply app_inj_tail in E as [E _].
    apply double_quotes_injective in E.
    rewrite <- (of_chars_chars s1), <- (of_chars_chars s2). now rewrite E.
  - apply (f_equal chars) in E. rewrite chars_of_chars in E.
    symmetry in E. apply quoted_needs_quoting in E. congruence.
  - apply (f_equal chars) in E. rewrite chars_of_chars in E.
    apply quoted_needs_quoting in E. congruence.
  - exact E.
Qed.

Lemma csvEscape_text_injective_witness :
  Server.csvEscape_text "meter, kitchen"
  = Server.csvEscape_text (of_chars (chars "meter, kitchen"))
  /\ "meter, kitchen" = of_chars (chars "meter, kitchen").
Proof.
  split; [reflexivity|].
  apply (csvEscape_text_injective "meter, kitchen"
           (of_chars (chars "meter, kitchen"))).
  reflexivity.
Defined.

(** ** The ring of recent events *)

Lemma pushEvent_bounded (events : list Server.event) (e : Server.event) :
  (List.length events <= 50)%nat ->
  (List.length (Server.pushEvent events e) <= 50)%nat.
Proof.
  intros Hle. unfold Server.pushEvent.
  destruct (50 <? List.length (events ++ [e]))%nat eqn:E.
  - rewrite length_app in *. simpl in *.
    destruct (events ++ [e]) eqn:El.
    + apply (f_equal (@List.length _)) in El. rewrite length_app in El.
      simpl in El. lia.
    + apply (f_equal (@List.length _)) in El. rewrite length_app in El.
      simpl in *. lia.
  - apply Nat.ltb_ge in E. exact E.
Qed.

(** X28: [lastEvents] never holds more than fifty events: a handler call
    that starts with at most fifty leaves at most fifty, whatever the
    request. *)
Theorem handleLoRaWebhook_events_bounded (H : host) (token : string)
  (st : Server.state) (req : Server.request) :
  (List.length (Server.lastEvents st) <= 50)%nat ->
  (List.length
     (Server.lastEvents (fst (Server.handleLoRaWebhook H token st req)))
   <= 50)%nat.
Proof.
  intros Hle.
  destruct (handleLoRaWebhook_cases H token st req)
    as [[_ ->] | [(_ & _ & ->) | (_ & dev & _ & ->)]]; simpl.
  - exact Hle.
  - now apply pushEvent_bounded.
  - unfold Server.store_parsed.
    destruct (Server.bind_text H _) as [name|]; [|exact Hle].
    destruct (Server.bind_text H _) as [app_id|]; [|exact Hle].
    destruct (Server.bind_text H _) as [app_name|]; [|exact Hle].
    destruct (Server.store_calls _ _ _ _) as [d0 [|]]; simpl;
      [now apply pushEvent_bounded | exact Hle].
Qed.

Lemma handleLoRaWebhook_events_bounded_witness :
  (List.length
     (Server.lastEvents
        (fst (Server.handleLoRaWebhook Sample.runtime "" fresh_server
                anonymous_request))) <= 50)%nat.
Proof.
  apply (handleLoRaWebhook_events_bounded Sample.runtime "" fresh_server
           anonymous_request).
  simpl. lia.
Defined.

(** ** Authorisation *)





(** ** Stored devices are listed *)

(** X30: a device is listed by [listDevices] as soon as one of its uplinks
    or one of its readings is stored. *)
Theorem stored_device_listed (H : host) (d : Db.db)
  (u : StoreUplinkInput.t) (r : StoreReadingInput.t) :
  In (StoreUplinkInput.dev_eui u)
    (map fst (Db.listDevices (Db.storeUplink H d u)))
  /\ match Db.storeReading H d r with
     | Some d' => In (StoreReadingInput.dev_eui r) (map fst (Db.listDevices d'))
     | None => True
     end.
Proof.
  split.
  - apply listDevices_members. right.
    pose proof (upsert_exists
                  (Db.uplink_conflict (StoreUplinkInput.dev_eui u)
                     (Db.effective_dedup u))
                  (Db.uplink_update
                     (Db.uplink_row H (Db.uplinks_seq d + 1) u))
                  (Db.uplink_row H (Db.uplinks_seq d + 1) u)
                  (Db.uplinks d) (uplink_row_conflict H _ u)
                  (fun r0 Hr0 => Hr0)) as Hex.
    apply existsb_exists in Hex as (row & Hin & Hc).
    apply uplink_conflict_iff in Hc as [Hd _]. exists row. auto.
  - destruct (Db.storeReading H d r) as [d'|] eqn:E; [|exact I].
    apply storeReading_some in E as ->.
    apply listDevices_members. left.
    pose proof (upsert_exists
                  (Db.reading_conflict (StoreReadingInput.dev_eui r)
                     (StoreReadingInput.at_ r))
                  (Db.reading_update (Db.reading_row H r))
                  (Db.reading_row H r)
                  (Db.readings d) (reading_row_conflict H r)
                  (fun r0 Hr0 => Hr0)) as Hex.
    apply existsb_exists in Hex as (row & Hin & Hc).
    apply reading_conflict_iff in Hc as [Hd _]. exists row. auto.
Qed.
